(** * The HANA adapter of the database mixin

    Query compilation ([createQuery], [find]), the CRUD primitives [count]
    and [insert], sort and identifier conversion, and connection set-up,
    embedded from [src/adapters/hdb.js]; the option defaults and the event
    subscription of the mixin, embedded from its entry module. *)

From Stdlib Require Import ZArith List String Ascii DecimalString Lia Bool.
From stdpp Require Import gmap strings.
Import ListNotations.
Open Scope string_scope.

(** ** JavaScript values

    The data the adapter handles is JSON-like: query filters, entities, rows
    and option objects.  Numbers are the integral ones (in the safe range,
    where [String(n)] is the plain decimal numeral); an object is the list of
    its own enumerable properties in the order [Object.entries] yields them. *)

Module Js.

#[local] Set Warnings "-register-all".

Inductive value : Type :=
| VUndef
| VNull
| VBool (b : bool)
| VNum (n : Z)
| VStr (s : string)
| VArr (xs : list value)
| VObj (props : list (string * value)).

(** An object: its properties in enumeration order. *)
Abbreviation object := (list (string * value)).

(** What a [throw] carries. *)
Inductive error : Type :=
| ReferenceError (ident : string)
| TypeError (what : string)
| BackendError (msg : string).

(** Outcome of a call: a returned value or a thrown error. *)
Inductive result (A : Type) : Type :=
| Return (a : A)
| Throw (e : error).
Arguments Return {A} a.
Arguments Throw {A} e.

Definition bind {A B} (r : result A) (k : A -> result B) : result B :=
  match r with
  | Return a => k a
  | Throw e => Throw e
  end.

(** [try { r } catch (err) { h }] *)
Definition try_catch {A} (r : result A) (h : error -> result A) : result A :=
  match r with
  | Return a => Return a
  | Throw e => h e
  end.

Definition Z_to_string (n : Z) : string := NilZero.string_of_int (Z.to_int n).

(** The string a value turns into under [+] with a string. *)
Fixpoint toString (v : value) : string :=
  match v with
  | VUndef => "undefined"
  | VNull => "null"
  | VBool true => "true"
  | VBool false => "false"
  | VNum n => Z_to_string n
  | VStr s => s
  | VArr xs =>
      (fix join (l : list value) : string :=
         match l with
         | [] => ""
         | x :: rest =>
             let sx := match x with
                       | VUndef | VNull => ""
                       | _ => toString x
                       end in
             match rest with
             | [] => sx
             | _ :: _ => sx +:+ "," +:+ join rest
             end
         end) xs
  | VObj _ => "[object Object]"
  end.

(** Truthiness, as [if (v)], [v && _] and [v ? _ : _] test it. *)
Definition truthy (v : value) : bool :=
  match v with
  | VUndef | VNull => false
  | VBool b => b
  | VNum n => negb (n =? 0)%Z
  | VStr s => negb (s =? "")
  | VArr _ | VObj _ => true
  end.

(** [typeof v == "object"] (which [null] satisfies). *)
Definition typeof_object (v : value) : bool :=
  match v with
  | VNull | VArr _ | VObj _ => true
  | _ => false
  end.

Definition typeof_string (v : value) : bool :=
  match v with
  | VStr _ => true
  | _ => false
  end.

(** [v != null] *)
Definition not_nullish (v : value) : bool :=
  match v with
  | VUndef | VNull => false
  | _ => true
  end.

Definition isArray (v : value) : bool :=
  match v with
  | VArr _ => true
  | _ => false
  end.

(** [v === true] and [v === false] *)
Definition is_true (v : value) : bool :=
  match v with
  | VBool true => true
  | _ => false
  end.

Definition is_false (v : value) : bool :=
  match v with
  | VBool false => true
  | _ => false
  end.

(** The own property [k] of an object ([undefined] when it has none); what
    an object inherits ([constructor], [toString], ...) is not looked up. *)
Fixpoint lookup (o : object) (k : string) : value :=
  match o with
  | [] => VUndef
  | (k', v) :: rest => if k' =? k then v else lookup rest k
  end.

(** [v.k] for a named (non-index) property [k] of a non-nullish [v]; only
    plain objects carry such properties in this model. *)
Definition get (v : value) (k : string) : value :=
  match v with
  | VObj o => lookup o k
  | _ => VUndef
  end.

Fixpoint indexed_from {A} (i : Z) (l : list A) : list (string * A) :=
  match l with
  | [] => []
  | x :: rest => (Z_to_string i, x) :: indexed_from (i + 1) rest
  end.

Definition chars (s : string) : list value :=
  map (fun c => VStr (String c EmptyString)) (list_ascii_of_string s).

(** [Object.entries(v)], which are also the properties [{...v}] defines on
    its copy: the own enumerable properties of [v]. *)
Definition entries (v : value) : object :=
  match v with
  | VObj o => o
  | VArr xs => indexed_from 0 xs
  | VStr s => indexed_from 0 (chars s)
  | _ => []
  end.

(** [Object.assign({}, v)]: the own enumerable properties of [v], written
    one by one into a fresh object.  The write under the key [__proto__]
    reaches the setter the fresh object inherits: it changes the prototype or
    does nothing, and the copy gets no property of that name. *)
Definition Object_assign (v : value) : object :=
  List.filter (fun kv => negb (fst kv =? "__proto__")) (entries v).

End Js.

Import Js.

(** ** The adapter's surroundings *)

(** An entry of [service.$fields]; the adapter reads [columnName] and
    [columnType] only. *)
Record Field : Type := mkField {
  columnName : string;
  columnType : string
}.

(** [this.opts], as far as the adapter's statements read it. *)
Record Opts : Type := mkOpts {
  schema : value;
  collection : value;
  host : value;
  user : value;
  password : value
}.

(** The [params] of [find], [count] and [createQuery]. *)
Record Params : Type := mkParams {
  query : value;
  sort : value;
  limit : value;
  offset : value
}.

(** ** [createQuery] *)

(** [this.service.$fields.find((elem) => elem?.columnName == key)] *)
Definition keyDef (fields : list Field) (key : string) : option Field :=
  List.find (fun elem => columnName elem =? key) fields.

(** The two-armed clause every comparison branch of [createQuery] appends:
    quoted when [keyIsString], bare otherwise. *)
Definition clause (q key op : string) (keyIsString : bool) (v : value) : string :=
  if keyIsString
  then q +:+ key +:+ " " +:+ op +:+ " '" +:+ toString v +:+ "' AND "
  else q +:+ key +:+ " " +:+ op +:+ " " +:+ toString v +:+ " AND ".

Definition isIdKey (key : string) : bool := (key =? "id") || (key =? "_id").

(** [key] after the identifier test: [id] and [_id] become [_ID]. *)
Definition physicalKey (key : string) : string :=
  if isIdKey key then "_ID" else key.

(** [keyIsString] after both tests: an identifier key, or a field found
    under the key as written whose [columnType] is [string]. *)
Definition keyIsString (fields : list Field) (key : string) : bool :=
  isIdKey key ||
  match keyDef fields key with
  | Some d => columnType d =? "string"
  | None => false
  end.

(** The body of the [forEach] over [Object.entries(query)]: [q] before the
    entry, [q] after it. *)
Definition queryEntry (fields : list Field) (q : string) (kv : string * value) : string :=
  let '(key0, val) := kv in
  let key := physicalKey key0 in
  let keyIsString := keyIsString fields key0 in
  if typeof_object val && not_nullish val then
    if truthy (get val "$in") && isArray (get val "$in") then q +:+ "IMPLEMENTAR"
    else if truthy (get val "$nin") && isArray (get val "$nin") then q +:+ "IMPLEMENTAR"
    else if truthy (get val "$gt") then clause q key ">" keyIsString (get val "$gt")
    else if truthy (get val "$gte") then clause q key ">=" keyIsString (get val "$gte")
    else if truthy (get val "$lt") then clause q key "<" keyIsString (get val "$lt")
    else if truthy (get val "$lte") then clause q key "<=" keyIsString (get val "$lte")
    else if truthy (get val "$eq") then clause q key "=" keyIsString (get val "$eq")
    else if truthy (get val "$ne") then clause q key "!=" keyIsString (get val "$ne")
    else if is_true (get val "$exists") then q +:+ "IMPLEMENTAR"
    else if is_false (get val "$exists") then q +:+ "IMPLEMENTAR"
    else if truthy (get val "$raw") then
      if typeof_string (get val "$raw") then q +:+ "IMPLEMENTAR"
      else if typeof_object (get val "$raw") then q +:+ "IMPLEMENTAR"
      else q
    else q
  else clause q key "=" keyIsString val.

(** [s.substring(0, s.length - n)] *)
Definition dropLast (n : nat) (s : string) : string :=
  substring 0 (String.length s - n) s.

(** [createQuery(params)]; [None] is a call without [params]. *)
Definition createQuery (fields : list Field) (params : option Params) : string :=
  let q :=
    match params with
    | Some p =>
        let query := if truthy (query p) then Object_assign (query p) else [] in
        fold_left (queryEntry fields) query "WHERE "
    | None => "WHERE "
    end in
  if negb (q =? "WHERE ")
  then dropLast 5 q
  else "".

(** ** Vocabulary for the compiled text *)

(** A literal as a clause shows it: between single quotes or bare. *)
Definition literal (quoted : bool) (v : value) : string :=
  if quoted then "'" +:+ toString v +:+ "'" else toString v.

(** The six comparisons [createQuery] renders, with the operator key of the
    filter and the operator of the clause. *)
Inductive comparison_op : Type := Gt | Gte | Lt | Lte | Eq | Ne.

Definition opName (c : comparison_op) : string :=
  match c with
  | Gt => "$gt" | Gte => "$gte" | Lt => "$lt"
  | Lte => "$lte" | Eq => "$eq" | Ne => "$ne"
  end.

Definition sqlOp (c : comparison_op) : string :=
  match c with
  | Gt => ">" | Gte => ">=" | Lt => "<"
  | Lte => "<=" | Eq => "=" | Ne => "!="
  end.

(** What one entry of [query] adds to the text. *)
Definition fragment (fields : list Field) (kv : string * value) : string :=
  queryEntry fields "" kv.

Definition fragments (fields : list Field) (es : list (string * value)) : string :=
  fold_right (fun kv rest => fragment fields kv +:+ rest) "" es.

(** ** Objects built by assignment

    [o[k] = v] keeps the place of a key the object already has; a new key
    that is an array index goes among the index keys in ascending order, any
    other new key goes last.  This is the order [Object.keys] reports. *)

Module Props.

Definition digit (c : ascii) : option N :=
  let n := N_of_ascii c in
  if ((48 <=? n) && (n <=? 57))%N then Some (n - 48)%N else None.

Fixpoint digits (acc : N) (s : string) : option N :=
  match s with
  | EmptyString => Some acc
  | String c rest =>
      match digit c with
      | Some d => digits (acc * 10 + d) rest
      | None => None
      end
  end.

(** The canonical numeric strings below [2^32 - 1]. *)
Definition array_index (k : string) : option N :=
  match k with
  | EmptyString => None
  | String c rest =>
      if (Ascii.eqb c "0" && negb (rest =? ""))%bool then None
      else match digits 0 k with
           | Some n => if (n <? 4294967295)%N then Some n else None
           | None => None
           end
  end.

Fixpoint has (o : object) (k : string) : bool :=
  match o with
  | [] => false
  | (k', _) :: rest => (k' =? k) || has rest k
  end.

Fixpoint update (o : object) (k : string) (v : value) : object :=
  match o with
  | [] => []
  | (k', v') :: rest =>
      if k' =? k then (k', v) :: rest else (k', v') :: update rest k v
  end.

Fixpoint insert_index (i : N) (k : string) (v : value) (o : object) : object :=
  match o with
  | [] => [(k, v)]
  | (k', v') :: rest =>
      match array_index k' with
      | Some j => if (j <? i)%N then (k', v') :: insert_index i k v rest
                  else (k, v) :: o
      | None => (k, v) :: o
      end
  end.

Definition set (o : object) (k : string) (v : value) : object :=
  if has o k then update o k v
  else match array_index k with
       | Some i => insert_index i k v o
       | None => (o ++ [(k, v)])%list
       end.

(** [o[k] = v] for a primitive [v] on an object literal: as [set], except
    that the key [__proto__] names the prototype, where a primitive is
    ignored. *)
Definition assign (o : object) (k : string) (v : value) : object :=
  if k =? "__proto__" then o else set o k v.

(** [{...a, ...b}] continued from [a]. *)
Definition spread (a b : object) : object :=
  fold_left (fun acc kv => set acc (fst kv) (snd kv)) b a.

End Props.

(** ** Reading a property of a plain object

    [o[k]] is the own property [k] of [o] when it has one, else what [o]
    inherits under [k] from [Object.prototype], else [undefined].  What a
    plain object inherits is no data: a built-in function, or under
    [__proto__] the prototype itself.  The adapter only tests such a member
    and concatenates it to a string, so it is kept as the text it turns
    into, a function as Node prints one. *)

Inductive member : Type :=
| Data (v : value)
| Builtin (text : string).

Definition member_truthy (m : member) : bool :=
  match m with
  | Data v => truthy v
  | Builtin _ => true
  end.

Definition member_text (m : member) : string :=
  match m with
  | Data v => toString v
  | Builtin text => text
  end.

(** The methods of [Object.prototype] whose function carries the name of
    the property. *)
Definition prototype_methods : list string :=
  ["__defineGetter__"; "__defineSetter__"; "hasOwnProperty"; "__lookupGetter__";
   "__lookupSetter__"; "isPrototypeOf"; "propertyIsEnumerable"; "toString";
   "valueOf"; "toLocaleString"].

Definition inherited (k : string) : option string :=
  if k =? "constructor" then Some "function Object() { [native code] }"
  else if k =? "__proto__" then Some "[object Object]"
  else if existsb (String.eqb k) prototype_methods
       then Some ("function " +:+ k +:+ "() { [native code] }")
       else None.

Definition read (o : object) (k : string) : member :=
  if Props.has o k then Data (lookup o k)
  else match inherited k with
       | Some text => Builtin text
       | None => Data VUndef
       end.

(** ** [transformSort] *)

(** [s.startsWith("-")] and [s.slice(1)] *)
Definition startsWith_dash (s : string) : bool := String.prefix "-" s.

Definition slice1 (s : string) : string := substring 1 (String.length s - 1) s.

(** The reducer: [res[s.slice(1)] = -1] or [res[s] = 1]; an element without
    [startsWith] makes the call throw. *)
Definition sortStep (res : result object) (s : value) : result object :=
  bind res (fun res =>
    match s with
    | VStr s =>
        if startsWith_dash s then Return (Props.assign res (slice1 s) (VNum (-1)))
        else Return (Props.assign res s (VNum 1))
    | _ => Throw (TypeError "s.startsWith is not a function")
    end).

Definition transformSort (sort : value) : result value :=
  let sort := if typeof_string sort then VArr [sort] else sort in
  match sort with
  | VArr xs => bind (fold_left sortStep xs (Return [])) (fun res => Return (VObj res))
  | _ => Return sort
  end.

(** ** The connection and the CRUD primitives *)

(** What [connectionObj.exec(sql)] gives back: the rows of a query, the
    number of rows a statement touched, or nothing. *)
Inductive reply : Type :=
| Rows (rows : list object)
| Affected (n : Z)
| Nothing.

Definition reply_truthy (r : reply) : bool :=
  match r with
  | Rows _ => true
  | Affected n => negb (n =? 0)%Z
  | Nothing => false
  end.

(** The behaviour of a connection object's [exec]. *)
Definition Connection : Type := string -> result reply.

(** [this.connectionObj.exec(sql)]; without a connection object the member
    access itself throws. *)
Definition exec (conn : option Connection) (sql : string) : result reply :=
  match conn with
  | Some c => c sql
  | None => Throw (TypeError "Cannot read properties of undefined (reading 'exec')")
  end.

(** [opts.schema ? opts.schema : undefined] and the like, then [+]. *)
Definition optName (v : value) : string :=
  toString (if truthy v then v else VUndef).

Definition tableName (opts : Opts) : string :=
  optName (schema opts) +:+ "." +:+ optName (collection opts).

(** The statement [find(params)] hands to [connectionObj.exec]. *)
Definition find_sql (opts : Opts) (fields : list Field) (params : option Params) : string :=
  let sqlQuery := "select * from " +:+ tableName opts in
  match params with
  | Some p =>
      if truthy (query p) then
        let query := createQuery fields params in
        if negb (query =? "") then sqlQuery +:+ " " +:+ query else sqlQuery
      else sqlQuery
  | None => sqlQuery
  end.

(** [find(params)]: every row gets [_id] from [_ID]. *)
Definition find (conn : option Connection) (opts : Opts) (fields : list Field)
    (params : option Params) : result reply :=
  bind (exec conn (find_sql opts fields params)) (fun response =>
    if reply_truthy response then
      match response with
      | Rows rows =>
          Return (Rows (map (fun elem => Props.set elem "_id" (lookup elem "_ID")) rows))
      | _ => Throw (TypeError "response.forEach is not a function")
      end
    else Return response).

Definition count_sql (opts : Opts) : string :=
  "select count(*) from " +:+ tableName opts.

(** [Object.values(queryResult[0])[0]] *)
Definition firstValue (queryResult : reply) : result value :=
  match queryResult with
  | Rows (row :: _) => Return (hd VUndef (map snd row))
  | _ => Throw (TypeError "Cannot convert undefined or null to object")
  end.

(** [count(params)]: both [catch] blocks are empty, so either failure falls
    through to [return 0]. *)
Definition count (conn : option Connection) (opts : Opts) (params : option Params)
    : result value :=
  let queryResult :=
    match exec conn (count_sql opts) with
    | Return r => r
    | Throw _ => Nothing
    end in
  if reply_truthy queryResult then
    try_catch (firstValue queryResult) (fun _ => Return (VNum 0))
  else Return (VNum 0).

(** The [forEach] of [insert] over [service.$fields]: the column list and
    the value list, each entry followed by [", "]. *)
Definition insertField (entity : object) (acc : string * string) (field : Field)
    : string * string :=
  let '(queryFields, queryValues) := acc in
  if member_truthy (read entity (columnName field)) then
    (queryFields +:+ columnName field +:+ ", ",
     if columnType field =? "string"
     then queryValues +:+ "'" +:+ member_text (read entity (columnName field)) +:+ "', "
     else queryValues +:+ member_text (read entity (columnName field)) +:+ ", ")
  else acc.

Definition insert_sql (opts : Opts) (fields : list Field) (entity : object) : string :=
  let '(queryFields, queryValues) := fold_left (insertField entity) fields ("", "") in
  "insert into " +:+ tableName opts +:+ "(" +:+ dropLast 2 queryFields
    +:+ ") VALUES(" +:+ dropLast 2 queryValues +:+ ")".

(** [insert(entity)]: the entity comes back whether [exec] returned or
    threw. *)
Definition insert (conn : option Connection) (opts : Opts) (fields : list Field)
    (entity : object) : result object :=
  let insertResult :=
    match exec conn (insert_sql opts fields entity) with
    | Return r => r
    | Throw _ => Nothing
    end in
  if reply_truthy insertResult then Return entity else Return entity.

(** ** Identifier conversion *)

(** What the identifier [ObjectId] would have to provide.  [hdb.js] requires
    lodash, [flatten] and [BaseAdapter] and declares [hanaClientObj] and
    [connectionObj]; it binds [ObjectId] nowhere, so the two functions below
    take the binding, if any, as an argument. *)
Record ObjectIdClass : Type := {
  isValid : value -> bool;
  createFromHexString : string -> result value
}.

(** The binding of [ObjectId] in [hdb.js]: none. *)
Definition hdb_ObjectId : option ObjectIdClass := None.

(** [stringToObjectID(id)]: the [&&] reaches [ObjectId] only for a string. *)
Definition stringToObjectID (ObjectId : option ObjectIdClass) (id : value) : result value :=
  if typeof_string id then
    match ObjectId with
    | None => Throw (ReferenceError "ObjectId")
    | Some cls =>
        if isValid cls id then createFromHexString cls (toString id) else Return id
    end
  else Return id.

(** [objectIDToString(id)]: the values of this model have no methods, so a
    truthy [toHexString] property is not callable. *)
Definition objectIDToString (id : value) : result value :=
  if truthy id && truthy (get id "toHexString")
  then Throw (TypeError "id.toHexString is not a function")
  else Return id.

(** ** Connecting *)

(** What a call leaves behind at the driver and on the console. *)
Inductive event : Type :=
| Created (c : nat)
| Opened (c : nat) (connParams : object)
| Closed (c : nat)
| Logged (err : error).

(** The HANA client, as a function of what happened so far:
    [createConnection()] returns a connection handle or throws, and so do
    [connect(connParams)] and [disconnect()] on a handle. *)
Record Driver : Type := {
  createConnection : list event -> result nat;
  connectTo : list event -> nat -> object -> result unit;
  disconnectFrom : list event -> nat -> result unit
}.

Record Adapter : Type := mkAdapter {
  opts : Opts;
  connectionObj : option nat
}.

Definition connParams (o : Opts) : object :=
  [("serverNode", host o); ("uid", user o); ("pwd", password o)].

(** [connect()]: the adapter afterwards and the events of this call.  The
    body has no [await], so a call runs from start to end before any other
    call starts. *)
Definition connect (drv : Driver) (history : list event) (a : Adapter)
    : Adapter * list event :=
  match connectionObj a with
  | Some _ => (a, [])
  | None =>
      match createConnection drv history with
      | Throw err => (a, [Logged err])
      | Return c =>
          let a' := {| opts := opts a; connectionObj := Some c |} in
          match connectTo drv (history ++ [Created c])%list c (connParams (opts a)) with
          | Return _ => (a', [Created c; Opened c (connParams (opts a))])
          | Throw err => (a', [Created c; Logged err])
          end
      end
  end.

(** [disconnect()]: a throwing [disconnect] leaves [connectionObj] set. *)
Definition disconnect (drv : Driver) (history : list event) (a : Adapter)
    : result (Adapter * list event) :=
  match connectionObj a with
  | Some c =>
      bind (disconnectFrom drv history c) (fun _ =>
        Return ({| opts := opts a; connectionObj := None |}, [Closed c]))
  | None => Return (a, [])
  end.

(** The service and what its calls act on: the adapter objects made so
    far, each at its address; the registry [this.adapters], from a key to
    the address of its adapter object; and, in order, what the calls did at
    the driver and on the console, each event under the key of the call that
    caused it. *)
Record Service : Type := mkService {
  objects : list Adapter;
  adapters : gmap string nat;
  log : list (string * event)
}.

(** [created()]: [this.adapters = new Map()], on a service for which no
    adapter object exists yet and nothing has happened. *)
Definition created : Service := {| objects := []; adapters := ∅; log := [] |}.

(** Modelled from the spec: the registry lookup of the mixin's methods
    module ([getAdapter]), whose source is not part of this development.  The
    registry maps a tenant/model key to its live adapter instance; a key met
    for the first time gets an adapter object of its own, which the registry
    keeps from then on.  The lookup hands out the object itself, not a copy:
    every caller for the key holds the same address. *)
Definition getAdapter (optsOf : string -> Opts) (key : string) (s : Service)
    : nat * Service :=
  match adapters s !! key with
  | Some r => (r, s)
  | None =>
      let r := List.length (objects s) in
      (r, {| objects := (objects s ++ [{| opts := optsOf key; connectionObj := None |}])%list;
             adapters := <[key := r]> (adapters s);
             log := log s |})
  end.

(** [adapter.connect()] on the adapter object at [r], for a call made for
    [key]: [connect] runs on the state the object has at that moment and
    leaves its new state in the object. *)
Definition connectOn (drv : Driver) (key : string) (r : nat) (s : Service) : Service :=
  match objects s !! r with
  | Some a =>
      let '(a', evs) := connect drv (map snd (log s)) a in
      {| objects := <[r := a']> (objects s);
         adapters := adapters s;
         log := (log s ++ map (pair key) evs)%list |}
  | None => s
  end.

(** A caller that connects the adapter of a key: it asks the registry for
    the adapter, and once it has it, calls [connect()] on it.  Between the
    two, and before and after, other callers may run. *)
Inductive call : Type :=
| Pending (key : string)
| Holding (key : string) (r : nat)
| Finished (key : string).

(** The next step of caller [i]. *)
Definition advance (drv : Driver) (optsOf : string -> Opts)
    (st : list call * Service) (i : nat) : list call * Service :=
  match fst st !! i with
  | Some (Pending key) =>
      let '(r, s') := getAdapter optsOf key (snd st) in
      (<[i := Holding key r]> (fst st), s')
  | Some (Holding key r) =>
      (<[i := Finished key]> (fst st), connectOn drv key r (snd st))
  | Some (Finished _) | None => st
  end.

(** The callers for [keys], started together on a fresh service and run in
    the order [schedule] picks them. *)
Definition interleave (drv : Driver) (optsOf : string -> Opts) (keys : list string)
    (schedule : list nat) : list call * Service :=
  fold_left (advance drv optsOf) schedule (map Pending keys, created).

Definition isOpened (e : event) : bool :=
  match e with
  | Opened _ _ => true
  | _ => false
  end.

Definition isCreated (e : event) : bool :=
  match e with
  | Created _ => true
  | _ => false
  end.

(** The events the calls for [key] left, in order. *)
Definition eventsFor (key : string) (l : list (string * event)) : list event :=
  map snd (List.filter (fun ke => fst ke =? key) l).

(** How many events of a kind the calls for [key] left. *)
Definition tally (kind : event -> bool) (key : string) (l : list (string * event)) : nat :=
  List.length (List.filter kind (eventsFor key l)).

(** Every event is an answer of the driver: a [Created c] where
    [createConnection()] returned [c], an [Opened c p] where [c.connect(p)]
    returned, a [Closed c] where [c.disconnect()] returned, and a logged
    error where one of the first two threw it; each at the history the
    events before it make up. *)
Fixpoint granted (drv : Driver) (h : list event) (evs : list event) : Prop :=
  match evs with
  | [] => True
  | e :: rest =>
      match e with
      | Created c => createConnection drv h = Return c
      | Opened c p => connectTo drv h c p = Return tt
      | Closed c => disconnectFrom drv h c = Return tt
      | Logged err =>
          createConnection drv h = Throw err
          \/ exists c p, connectTo drv h c p = Throw err
      end
      /\ granted drv (h ++ [e])%list rest
  end.

(** The adapter object the registry holds for [key]. *)
Definition adapterOf (s : Service) (key : string) : option Adapter :=
  match adapters s !! key with
  | Some r => objects s !! r
  | None => None
  end.

(** How far a caller is: its key and the number of steps it has taken. *)
Definition stage (c : call) : string * nat :=
  match c with
  | Pending key => (key, 0)
  | Holding key _ => (key, 1)
  | Finished key => (key, 2)
  end.

(** ** The mixin *)

(** The second argument of [_.defaultsDeep]. *)
Definition defaultOpts : object :=
  [ ("createActions", VBool true);
    ("actionVisibility", VStr "published");
    ("generateActionParams", VBool true);
    ("cache", VObj [("enable", VBool true); ("eventName", VNull)]);
    ("rest", VBool true);
    ("autoReconnect", VBool true);
    ("maxLimit", VNum (-1));
    ("defaultPageSize", VNum 10) ].

(** lodash's [defaultsDeep] on one property: a default fills a property that
    resolves to [undefined]; where both sides are plain objects the defaults
    are merged in recursively; any other destination value stays.  (An array
    destination would take the defaults as named properties, which the arrays
    of this model do not show.) *)
Fixpoint mergeDefault (objValue srcValue : value) {struct srcValue} : value :=
  match objValue with
  | VUndef => srcValue
  | VObj o =>
      match srcValue with
      | VObj src =>
          VObj ((fix each (src : list (string * value)) (o : object) : object :=
                   match src with
                   | [] => o
                   | (k, d) :: rest =>
                       each rest (Props.set o k (mergeDefault (lookup o k) d))
                   end) src o)
      | _ => objValue
      end
  | _ => objValue
  end.

(** The destination of [_.defaultsDeep]: a missing [mixinOpts] starts from
    the empty object. *)
Definition optionsObject (mixinOpts : option object) : object :=
  match mixinOpts with
  | Some o => o
  | None => []
  end.

(** [_.defaultsDeep(mixinOpts, defaults)] *)
Definition defaultsDeep (mixinOpts : option object) (defaults : object) : object :=
  match mergeDefault (VObj (optionsObject mixinOpts)) (VObj defaults) with
  | VObj o => o
  | _ => []
  end.

(** The loop of [mergeDefault] over the defaults' properties, on its own. *)
Definition mergeEach (src o : object) : object :=
  fold_left (fun o kd => Props.set o (fst kd) (mergeDefault (lookup o (fst kd)) (snd kd)))
            src o.

(** The schema the mixin returns: its data, and the names of the events it
    subscribes to ([None] when the schema has no [events] property).  The
    lifecycle hooks are functions and have no counterpart here. *)
Record ServiceSchema : Type := {
  name : string;
  settings : object;
  actions : object;
  methods : object;
  events : option (list string)
}.

Section DatabaseMixin.

(** The action and method tables are built by the modules [./actions],
    [./methods], [./transform] and [./validation]; here they are functions of
    the options. *)
Variables Actions DbMethods Transform Validation : object -> object.

(** [DatabaseMixin(mixinOpts)] called with [this] bound to [thisArg]
    ([VUndef] for a plain call in strict mode). *)
Definition DatabaseMixin (thisArg : value) (mixinOpts : option object)
    : result ServiceSchema :=
  let mixinOpts := defaultsDeep mixinOpts defaultOpts in
  let schema events :=
    {| name := "";
       settings := [("fields", VNull); ("scopes", VObj []);
                    ("defaultScopes", VNull); ("indexes", VNull)];
       actions := Props.spread [] (Actions mixinOpts);
       methods := Props.spread (Props.spread (Props.spread [] (DbMethods mixinOpts))
                                             (Transform mixinOpts))
                               (Validation mixinOpts);
       events := events |} in
  let cache := lookup mixinOpts "cache" in
  if truthy cache && truthy (get cache "enabled") then
    bind (if truthy (get cache "eventName") then Return (toString (get cache "eventName"))
          else if not_nullish thisArg
               then Return ("cache.clean." +:+ toString (get thisArg "name"))
               else Throw (TypeError "Cannot read properties of undefined (reading 'name')"))
         (fun eventName => Return (schema (Some [eventName])))
  else Return (schema None).

End DatabaseMixin.

(** ** The example entity *)

Definition onlyQuery (q : value) : Params :=
  {| query := q; sort := VUndef; limit := VUndef; offset := VUndef |}.

(** [{ id: string, name: string, age: number, deletedAt }] *)
Definition people : list Field :=
  [ mkField "id" "string"; mkField "name" "string";
    mkField "age" "number"; mkField "deletedAt" "number" ].

Definition app : Opts :=
  {| schema := VStr "APP"; collection := VStr "PEOPLE";
     host := VStr "hana.example:443"; user := VStr "APP_USER";
     password := VStr "secret" |}.

(** [find({query: {age: {$gte: 18, $lte: 65}}, sort: ["-age"]})] *)
Definition rangeRequest : Params :=
  {| query := VObj [("age", VObj [("$gte", VNum 18); ("$lte", VNum 65)])];
     sort := VArr [VStr "-age"];
     limit := VUndef;
     offset := VUndef |}.

(** A condition [createQuery] renders as a clause, with the clause it adds
    (the joiner left out): a literal, or one comparison on a truthy
    operand. *)
Inductive renders (fields : list Field) : string * value -> string -> Prop :=
| renders_literal (key : string) (v : value) :
    typeof_object v && not_nullish v = false ->
    renders fields (key, v)
      (physicalKey key +:+ " = " +:+ literal (keyIsString fields key) v)
| renders_comparison (c : comparison_op) (key : string) (v : value) :
    truthy v = true ->
    renders fields (key, VObj [(opName c, v)])
      (physicalKey key +:+ " " +:+ sqlOp c +:+ " "
         +:+ literal (keyIsString fields key) v).

(** The property one element of a sort list stands for: the field without
    its dash and [-1], or the field and [1]. *)
Definition sortKey (s : string) : string * value :=
  if startsWith_dash s then (slice1 s, VNum (-1)) else (s, VNum 1).

(** A key that an assignment appends: neither [__proto__] nor an array
    index. *)
Definition plainKey (k : string) : bool :=
  negb (k =? "__proto__") &&
  match Props.array_index k with
  | Some _ => false
  | None => true
  end.

(** [find({query: {age: 18}, sort: ["-age", "name"]})] *)
Definition sortedRequest : Params :=
  {| query := VObj [("age", VNum 18)];
     sort := VArr [VStr "-age"; VStr "name"];
     limit := VUndef;
     offset := VUndef |}.

(** A connection whose [exec] fails with the backend's error [msg]. *)
Definition failing (msg : string) : Connection :=
  fun _ => Throw (BackendError msg).

(** A driver that never fails. *)
Definition reliable (drv : Driver) : Prop :=
  (forall h, exists c, createConnection drv h = Return c) /\
  (forall h c p, connectTo drv h c p = Return tt).

(** [1] for an adapter with a connection object, [0] for one without. *)
Definition holds (a : Adapter) : nat :=
  match connectionObj a with
  | Some _ => 1
  | None => 0
  end.

(** A driver whose handles count the events so far and that never fails. *)
Definition countingDriver : Driver :=
  {| createConnection := fun h => Return (List.length h);
     connectTo := fun _ _ _ => Return tt;
     disconnectFrom := fun _ _ => Return tt |}.

(** What holds of the callers and the service at every moment, whatever the
    driver does. *)
Record consistent (drv : Driver) (optsOf : string -> Opts)
    (st : list call * Service) : Prop := {
  registered_object : forall key r,
    adapters (snd st) !! key = Some r ->
    exists a, objects (snd st) !! r = Some a /\ opts a = optsOf key;
  registered_once : forall k1 k2 r,
    adapters (snd st) !! k1 = Some r -> adapters (snd st) !! k2 = Some r -> k1 = k2;
  holding_registered : forall i key r,
    fst st !! i = Some (Holding key r) -> adapters (snd st) !! key = Some r;
  created_tally : forall key,
    tally isCreated key (log (snd st))
    = match adapterOf (snd st) key with
      | Some a => holds a
      | None => 0
      end;
  opened_tally : forall key,
    tally isOpened key (log (snd st)) <= tally isCreated key (log (snd st));
  log_granted : granted drv [] (map snd (log (snd st)))
}.

(** What holds in addition when the driver never fails. *)
Record settled (optsOf : string -> Opts) (st : list call * Service) : Prop := {
  events_exact : forall key,
    eventsFor key (log (snd st))
    = match adapterOf (snd st) key with
      | Some a =>
          match connectionObj a with
          | Some c => [Created c; Opened c (connParams (optsOf key))]
          | None => []
          end
      | None => []
      end;
  finished_connected : forall i key,
    fst st !! i = Some (Finished key) ->
    exists a c, adapterOf (snd st) key = Some a /\ connectionObj a = Some c
}.

(** ** [updateById] *)

(** The [forEach] of [updateById] over [Object.entries(changes)]: one
    assignment, quoted for a [string] column, followed by a comma.  The keys
    [id] and [_id] get no special treatment here. *)
Definition updateEntry (fields : list Field) (setString : string) (kv : string * value)
    : string :=
  let '(key, val) := kv in
  let keyIsString :=
    match keyDef fields key with
    | Some d => columnType d =? "string"
    | None => false
    end in
  if keyIsString
  then setString +:+ " " +:+ key +:+ "='" +:+ toString val +:+ "',"
  else setString +:+ " " +:+ key +:+ "=" +:+ toString val +:+ ",".

(** The statement [updateById] builds once [setString] is not empty. *)
Definition update_sql (opts : Opts) (setString : string) (id : value) : string :=
  "UPDATE " +:+ tableName opts +:+ " SET " +:+ dropLast 1 setString
    +:+ "WHERE _ID = '" +:+ toString id +:+ "'".

(** [findResult[0]] *)
Definition firstRow (findResult : reply) : value :=
  match findResult with
  | Rows (row :: _) => VObj row
  | _ => VUndef
  end.

(** [updateById(id, changes, opts)]: the [catch] around [exec] is empty; what
    [find] throws is not caught. *)
Definition updateById (conn : option Connection) (opts : Opts) (fields : list Field)
    (id : value) (changes : object) : result value :=
  if truthy id then
    let setString := fold_left (updateEntry fields) changes "" in
    if negb (setString =? "") then
      let insertResult :=
        match exec conn (update_sql opts setString id) with
        | Return r => r
        | Throw _ => Nothing
        end in
      if reply_truthy insertResult then
        bind (find conn opts fields (Some (onlyQuery (VObj [("id", id)]))))
          (fun findResult =>
             if reply_truthy findResult then Return (firstRow findResult)
             else Return VUndef)
      else Return VUndef
    else Return VUndef
  else Return VUndef.

(** ** The methods kept from the document-store adapter *)

(** [this.collection], which [hdb.js] never assigns: the methods the adapter
    calls on it, as functions of their arguments ([find] together with the
    [toArray] that follows it). *)
Record Collection : Type := {
  col_findOne : object -> result value;
  col_findToArray : object -> result value;
  col_findOneAndReplace : object -> object -> result value;
  col_findOneAndDelete : object -> result value;
  col_createIndex : value -> object -> result value;
  col_dropIndex : value -> result value
}.

(** [this.collection.m]: the member access comes before the arguments. *)
Definition onCollection {A} (collection : option Collection)
    (k : Collection -> result A) : result A :=
  match collection with
  | Some c => k c
  | None => Throw (TypeError "Cannot read properties of undefined")
  end.

Fixpoint mapResult {A B} (f : A -> result B) (l : list A) : result (list B) :=
  match l with
  | [] => Return []
  | x :: rest =>
      bind (f x) (fun y => bind (mapResult f rest) (fun ys => Return (y :: ys)))
  end.

(** [findOne(params)]: through [find] when [params.sort] is set, through the
    collection otherwise. *)
Definition findOne (conn : option Connection) (collection : option Collection)
    (ObjectId : option ObjectIdClass) (opts : Opts) (fields : list Field)
    (params : Params) : result value :=
  if truthy (sort params) then
    bind (find conn opts fields (Some params)) (fun res =>
      match res with
      | Rows (row :: _) => Return (VObj row)
      | Rows [] => Return VNull
      | Affected _ => Return VNull
      | Nothing => Throw (TypeError "Cannot read properties of undefined (reading 'length')")
      end)
  else
    let q := entries (query params) in
    bind (if truthy (lookup q "_id")
          then bind (stringToObjectID ObjectId (lookup q "_id"))
                    (fun id => Return (Props.set q "_id" id))
          else Return q)
         (fun q => onCollection collection (fun c => col_findOne c q)).

(** [findById(id)] *)
Definition findById (collection : option Collection) (ObjectId : option ObjectIdClass)
    (id : value) : result value :=
  onCollection collection (fun c =>
    bind (stringToObjectID ObjectId id) (fun id => col_findOne c [("_id", id)])).

(** [findByIds(idList)] *)
Definition findByIds (collection : option Collection) (ObjectId : option ObjectIdClass)
    (idList : list value) : result value :=
  onCollection collection (fun c =>
    bind (mapResult (stringToObjectID ObjectId) idList) (fun ids =>
      col_findToArray c [("_id", VObj [("$in", VArr ids)])])).

(** [replaceById(id, entity)]: [res.value] of what the collection gives. *)
Definition replaceById (collection : option Collection) (ObjectId : option ObjectIdClass)
    (id : value) (entity : object) : result value :=
  onCollection collection (fun c =>
    bind (stringToObjectID ObjectId id) (fun id =>
      bind (col_findOneAndReplace c [("_id", id)] entity) (fun res =>
        if not_nullish res then Return (get res "value")
        else Throw (TypeError "Cannot read properties of undefined (reading 'value')")))).

(** [removeById(id)]: the id comes back once the collection has answered. *)
Definition removeById (collection : option Collection) (ObjectId : option ObjectIdClass)
    (id : value) : result value :=
  onCollection collection (fun c =>
    bind (stringToObjectID ObjectId id) (fun oid =>
      bind (col_findOneAndDelete c [("_id", oid)]) (fun _ => Return id))).


(** [convertIDToObjectID(query)]: the copy [q] with its [_id], or the
    elements of its [_id.$in], converted. *)
Definition convertIDToObjectID (ObjectId : option ObjectIdClass) (query : value)
    : result value :=
  if truthy query && truthy (get query "_id") then
    let q := entries query in
    let id := lookup q "_id" in
    if typeof_object id && isArray (get id "$in") then
      match get id "$in" with
      | VArr xs =>
          bind (mapResult (stringToObjectID ObjectId) xs) (fun ys =>
            Return (VObj (Props.set q "_id"
                            (VObj (Props.set (entries id) "$in" (VArr ys))))))
      | _ => Return (VObj q)
      end
    else
      bind (stringToObjectID ObjectId id) (fun id => Return (VObj (Props.set q "_id" id)))
  else Return query.

(** The index description [createIndex] derives from [def.fields]: a name,
    a list of names, or a description given as such. *)
Definition indexFields (fields : value) : value :=
  if typeof_string fields then VObj [(toString fields, VNum 1)]
  else match fields with
       | VArr xs =>
           VObj (fold_left (fun a b => Props.assign a (toString b) (VNum 1)) xs [])
       | _ => fields
       end.

(** [createIndex(def)] *)
Definition createIndex (collection : option Collection) (def : object) : result value :=
  let fields := indexFields (lookup def "fields") in
  onCollection collection (fun c => col_createIndex c fields def).

(** [removeIndex(def)] *)
Definition removeIndex (collection : option Collection) (def : object) : result value :=
  if truthy (lookup def "name")
  then onCollection collection (fun c => col_dropIndex c (lookup def "name"))
  else onCollection collection (fun c => col_dropIndex c (lookup def "fields")).

(** ** Vocabulary for the statements *)

(** Texts in a row, each followed by the separator. *)
Definition followed (sep : string) (l : list string) : string :=
  fold_right (fun x rest => x +:+ sep +:+ rest) "" l.

(** The fields [insert] writes: those under whose column name the entity
    gives a truthy member, its own or an inherited one. *)
Definition insertColumns (fields : list Field) (entity : object) : list Field :=
  List.filter (fun f => member_truthy (read entity (columnName f))) fields.

(** The value [insert] writes for a field: quoted for a [string] column. *)
Definition insertValue (entity : object) (f : Field) : string :=
  if columnType f =? "string"
  then "'" +:+ member_text (read entity (columnName f)) +:+ "'"
  else member_text (read entity (columnName f)).

(** One assignment of an [UPDATE]: a blank, the key, [=] and the value,
    quoted when the key is the column of a [string] field. *)
Definition assignment (fields : list Field) (kv : string * value) : string :=
  " " +:+ fst kv +:+ "="
    +:+ literal (match keyDef fields (fst kv) with
                 | Some d => columnType d =? "string"
                 | None => false
                 end) (snd kv).

(** A driver that hands out connection objects and refuses to open them. *)
Definition refusingDriver : Driver :=
  {| createConnection := fun h => Return (List.length h);
     connectTo := fun _ _ _ => Throw (BackendError "connection refused");
     disconnectFrom := fun _ _ => Return tt |}.

(** The direction the last mention of the field [k] in a sort list gives
    ([undefined] when no element mentions it). *)
Definition lastDirection (names : list string) (k : string) : value :=
  fold_left (fun acc s => if fst (sortKey s) =? k then snd (sortKey s) else acc)
            names VUndef.

(** A collection that answers every call with the filter, entity or index
    description it was given. *)
Definition echoCollection : Collection :=
  {| col_findOne := fun q => Return (VObj q);
     col_findToArray := fun q => Return (VObj q);
     col_findOneAndReplace := fun _ entity => Return (VObj [("value", VObj entity)]);
     col_findOneAndDelete := fun q => Return (VObj q);
     col_createIndex := fun fields _ => Return fields;
     col_dropIndex := fun name => Return name |}.

(** * Properties *)

(** ** Strings *)

Lemma append_nil (s : string) : "" +:+ s = s.
Proof. reflexivity. Qed.

Lemma append_cons (c : ascii) (a b : string) :
  String c a +:+ b = String c (a +:+ b).
Proof. reflexivity. Qed.

Lemma append_assoc (a b c : string) : (a +:+ b) +:+ c = a +:+ (b +:+ c).
Proof.
  induction a as [|x a IH]; [reflexivity|].
  now rewrite !append_cons, IH.
Qed.

Lemma append_empty_r (s : string) : s +:+ "" = s.
Proof.
  induction s as [|x s IH]; [reflexivity|].
  now rewrite append_cons, IH.
Qed.

Lemma length_append (a b : string) :
  String.length (a +:+ b) = String.length a + String.length b.
Proof.
  induction a as [|x a IH]; [reflexivity|].
  rewrite append_cons. simpl. now rewrite IH.
Qed.

Lemma substring_prefix (a b : string) :
  substring 0 (String.length a) (a +:+ b) = a.
Proof.
  induction a as [|x a IH].
  - rewrite append_nil. now destruct b.
  - rewrite append_cons. simpl. now rewrite IH.
Qed.

(** Cutting the last [length b] characters off [a +:+ b] leaves [a]. *)
Lemma dropLast_append (a b : string) :
  dropLast (String.length b) (a +:+ b) = a.
Proof.
  unfold dropLast. rewrite length_append.
  replace (String.length a + String.length b - String.length b)
    with (String.length a) by lia.
  apply substring_prefix.
Qed.

Lemma append_longer (a b : string) : b <> "" -> (a +:+ b =? a) = false.
Proof.
  intros Hb. apply String.eqb_neq. intros E.
  apply (f_equal String.length) in E. rewrite length_append in E.
  destruct b; [congruence | simpl in E; lia].
Qed.

(** ** The copy of the query *)

(** An object without a [__proto__] key is copied as it is. *)
Lemma Object_assign_plain (o : object) :
  Forall (fun kv => fst kv <> "__proto__") o -> Object_assign (VObj o) = o.
Proof.
  unfold Object_assign. cbn [entries].
  induction 1 as [|kv o Hkv _ IH]; [reflexivity|].
  cbn [List.filter]. apply String.eqb_neq in Hkv. now rewrite Hkv, IH.
Qed.

Lemma Object_assign_single (key : string) (v : value) :
  key <> "__proto__" -> Object_assign (VObj [(key, v)]) = [(key, v)].
Proof. intros Hkey. apply Object_assign_plain. now repeat constructor. Qed.

(** The copy has the entries before and after a key, and the entry of the
    key unless the key is [__proto__]. *)
Lemma Object_assign_app (es1 es2 : object) :
  Object_assign (VObj (es1 ++ es2)%list)
  = (Object_assign (VObj es1) ++ Object_assign (VObj es2))%list.
Proof. unfold Object_assign. cbn [entries]. apply List.filter_app. Qed.

(** ** The shape of a compiled query *)

Section Compilation.

Variable fields : list Field.

Lemma queryEntry_fragment (q : string) (kv : string * value) :
  queryEntry fields q kv = q +:+ fragment fields kv.
Proof.
  destruct kv as [key val]. unfold fragment, queryEntry, clause.
  repeat match goal with
         | |- context [if ?b then _ else _] => destruct b
         end;
    try reflexivity; now rewrite append_empty_r.
Qed.

Lemma fold_queryEntry (es : list (string * value)) (q : string) :
  fold_left (queryEntry fields) es q = q +:+ fragments fields es.
Proof.
  revert q. induction es as [|kv es IH]; intros q; simpl.
  - now rewrite append_empty_r.
  - now rewrite IH, queryEntry_fragment, append_assoc.
Qed.

(** [createQuery] in one line: the fragments after ["WHERE "], less the last
    five characters, or nothing when no entry added text. *)
Lemma createQuery_fragments (p : Params) :
  createQuery fields (Some p) =
  let q := "WHERE " +:+ fragments fields (if truthy (query p) then Object_assign (query p) else []) in
  if negb (q =? "WHERE ") then dropLast 5 q else "".
Proof. unfold createQuery. now rewrite fold_queryEntry. Qed.

(** Entries that each add [body +:+ " AND "] give the bodies joined by
    [" AND "], followed by one more joiner. *)
Lemma fragments_joined (es : list (string * value)) (bodies : list string) :
  Forall2 (fun kv body => fragment fields kv = body +:+ " AND ") es bodies ->
  bodies <> [] ->
  fragments fields es = String.concat " AND " bodies +:+ " AND ".
Proof.
  induction 1 as [|kv body es bodies Hkv Hall IH]; intros Hne; [congruence|].
  simpl fragments. rewrite Hkv.
  destruct bodies as [|body' bodies].
  - inversion Hall; subst. simpl. now rewrite append_empty_r.
  - rewrite IH by discriminate.
    change (String.concat " AND " (body :: body' :: bodies))
      with (body +:+ " AND " +:+ String.concat " AND " (body' :: bodies)).
    now rewrite !append_assoc.
Qed.

(** When every entry of [query] is rendered as a clause, the compiled text
    is ["WHERE "] and the clause bodies joined by [" AND "], with nothing
    after the last body. *)
Lemma createQuery_joined (p : Params) (bodies : list string) :
  truthy (query p) = true ->
  Forall2 (fun kv body => fragment fields kv = body +:+ " AND ") (Object_assign (query p)) bodies ->
  bodies <> [] ->
  createQuery fields (Some p) = "WHERE " +:+ String.concat " AND " bodies.
Proof.
  intros Hq Hall Hne. rewrite createQuery_fragments, Hq. cbv zeta.
  rewrite (fragments_joined _ _ Hall Hne), append_longer.
  - simpl negb. cbv iota. rewrite <- append_assoc.
    apply (dropLast_append _ " AND ").
  - intros E. apply (f_equal String.length) in E.
    rewrite length_append in E. simpl in E. lia.
Qed.

End Compilation.

(** ** Conditions that are rendered as clauses *)

Section Clauses.

Variable fields : list Field.

Lemma clause_literal (key op : string) (b : bool) (v : value) :
  clause "" key op b v = key +:+ " " +:+ op +:+ " " +:+ literal b v +:+ " AND ".
Proof.
  unfold clause, literal. destruct b; [|reflexivity].
  rewrite append_nil.
  change (" '" +:+ toString v +:+ "' AND ")
    with (" " +:+ "'" +:+ toString v +:+ "' AND ").
  change "' AND " with ("'" +:+ " AND ").
  now rewrite <- !append_assoc.
Qed.

(** A condition that is not an object is an equality on the literal. *)
Lemma fragment_literal (key : string) (v : value) :
  typeof_object v && not_nullish v = false ->
  fragment fields (key, v) =
  physicalKey key +:+ " = " +:+ literal (keyIsString fields key) v +:+ " AND ".
Proof.
  intros Hv. unfold fragment, queryEntry. rewrite Hv. apply clause_literal.
Qed.

(** An operator object with one comparison and a truthy operand is that
    comparison on the operand. *)
Lemma fragment_comparison (c : comparison_op) (key : string) (v : value) :
  truthy v = true ->
  fragment fields (key, VObj [(opName c, v)]) =
  physicalKey key +:+ " " +:+ sqlOp c +:+ " "
    +:+ literal (keyIsString fields key) v +:+ " AND ".
Proof.
  intros Hv. unfold fragment, queryEntry.
  destruct c; simpl; rewrite Hv; apply clause_literal.
Qed.

(** An operand that is falsy ([0], the empty string, [false], [null]) makes
    the entry add nothing. *)
Lemma fragment_falsy_operand (c : comparison_op) (key : string) (v : value) :
  truthy v = false ->
  fragment fields (key, VObj [(opName c, v)]) = "".
Proof.
  intros Hv. unfold fragment, queryEntry.
  destruct c; simpl; rewrite Hv; reflexivity.
Qed.

End Clauses.

(** ** Compiling query filters *)

(** An own [__proto__] key of the query is not copied, so its condition
    never reaches the text. *)
Lemma own_proto_key_is_dropped :
  createQuery people (Some (onlyQuery (VObj [("__proto__", VNum 5); ("age", VNum 1)])))
  = "WHERE age = 1".
Proof. reflexivity. Qed.

(** X1.  When the conditions [createQuery] goes through, those of its copy
    of the query, are all rendered (literals, and comparisons on a truthy
    operand), they compile to their clauses joined by [" AND "], with the
    literals put in as they are, and the text ends with the last clause. *)
Lemma rendered_conditions_joined (fields : list Field) (p : Params)
    (bodies : list string) :
  truthy (query p) = true ->
  Forall2 (renders fields) (Object_assign (query p)) bodies ->
  bodies <> [] ->
  createQuery fields (Some p) = "WHERE " +:+ String.concat " AND " bodies.
Proof.
  intros Hq Hall Hne. apply createQuery_joined; try assumption.
  eapply Forall2_impl; [exact Hall|].
  intros kv body Hr. destruct Hr as [key v Hv | c key v Hv].
  - rewrite (fragment_literal fields key v Hv). now rewrite !append_assoc.
  - rewrite (fragment_comparison fields c key v Hv). now rewrite !append_assoc.
Qed.

(** X4.  On [id] and [_id], a literal and a rendered comparison name the
    column [_ID] and quote the value, whatever the fields say. *)
Lemma identifier_clause (fields : list Field) (key : string) (v : value)
    (c : comparison_op) :
  isIdKey key = true ->
  (typeof_object v && not_nullish v = false ->
   fragment fields (key, v) = "_ID = '" +:+ toString v +:+ "' AND ")
  /\
  (truthy v = true ->
   fragment fields (key, VObj [(opName c, v)])
   = "_ID " +:+ sqlOp c +:+ " '" +:+ toString v +:+ "' AND ").
Proof.
  intros Hid. split; intros Hv.
  - rewrite (fragment_literal fields key v Hv).
    unfold physicalKey, keyIsString, literal. rewrite Hid. cbn [orb].
    now rewrite !append_assoc.
  - rewrite (fragment_comparison fields c key v Hv).
    unfold physicalKey, keyIsString, literal. rewrite Hid. cbn [orb].
    now rewrite !append_assoc.
Qed.

(** A comparison on a falsy operand is dropped without a trace: the filter
    [{age: {$gt: 0}}] compiles to no clause at all, and [find] then reads the
    whole table. *)
Lemma falsy_operand_drops_condition :
  createQuery people (Some (onlyQuery (VObj [("age", VObj [("$gt", VNum 0)])]))) = ""
  /\ find_sql app people (Some (onlyQuery (VObj [("age", VObj [("$gt", VNum 0)])])))
     = "select * from APP.PEOPLE".
Proof. split; reflexivity. Qed.

(** C1 (the code departs from it).  A condition with [$in], [$nin],
    [$exists] or [$raw] makes [createQuery] return normally, and what it adds
    to the text is the marker [IMPLEMENTAR]; as the only entry, the marker
    loses its last five characters to the trimming of the joiner.  No error
    is raised and no rendering of the operator is produced.  This holds
    under every key that [Object.assign] copies, that is every key but
    [__proto__]. *)
Theorem unrendered_operators_leave_marker (fields : list Field) (key : string)
    (xs : list value) (c : ascii) (raw : string) (o : object) (srt lim off : value) :
  key <> "__proto__" ->
  let compile cond := createQuery fields (Some (mkParams (VObj [(key, cond)]) srt lim off)) in
  compile (VObj [("$in", VArr xs)]) = "WHERE IMPLEM" /\
  compile (VObj [("$nin", VArr xs)]) = "WHERE IMPLEM" /\
  compile (VObj [("$exists", VBool true)]) = "WHERE IMPLEM" /\
  compile (VObj [("$exists", VBool false)]) = "WHERE IMPLEM" /\
  compile (VObj [("$raw", VStr (String c raw))]) = "WHERE IMPLEM" /\
  compile (VObj [("$raw", VObj o)]) = "WHERE IMPLEM".
Proof.
  intros Hkey. apply String.eqb_neq in Hkey.
  unfold createQuery, Object_assign. cbn [query truthy entries List.filter fst].
  rewrite Hkey. repeat split; reflexivity.
Qed.

Lemma unrendered_operators_leave_marker_age :
  createQuery people
    (Some (onlyQuery (VObj [("age", VObj [("$in", VArr [VNum 18; VNum 65])])])))
  = "WHERE IMPLEM".
Proof.
  refine (proj1 (unrendered_operators_leave_marker people "age" [VNum 18; VNum 65]
                   "x" "" [] VUndef VUndef VUndef _)).
  discriminate.
Defined.

(** C2 (the code departs from it).  For the request
    [find({query: {age: {$gte: 18, $lte: 65}}, sort: ["-age"]})] on the
    example entity, the condition compiles to the lower bound alone, and the
    statement [find] sends is that bound after the table: it has no upper
    bound and no [AND], and it does not mention [age] after the bound, so it
    has no sort key either. *)
Theorem range_request_single_bound :
  createQuery people (Some rangeRequest) = "WHERE age >= 18"
  /\ find_sql app people (Some rangeRequest) = "select * from APP.PEOPLE WHERE age >= 18"
  /\ index 0 "<=" (find_sql app people (Some rangeRequest)) = None
  /\ index 0 "AND" (find_sql app people (Some rangeRequest)) = None
  /\ index 0 "age" (find_sql app people (Some rangeRequest)) = Some 31
  /\ index 32 "age" (find_sql app people (Some rangeRequest)) = None.
Proof. repeat split; reflexivity. Qed.

(** C3, as the code has it.  Under [$gte], a literal on a field whose
    [columnType] is [string] is rendered between single quotes; a literal on
    a field whose [columnType] is [number] is rendered bare, unless the key
    is [id] or [_id].  The key is one the copy of the query keeps, that is
    any key but [__proto__]. *)
Theorem gte_literal_quoting (fields : list Field) (key : string) (d : Field)
    (s : string) (n : Z) (srt lim off : value) :
  keyDef fields key = Some d ->
  key <> "__proto__" ->
  s <> "" ->
  n <> 0%Z ->
  (columnType d = "string" ->
   createQuery fields
     (Some (mkParams (VObj [(key, VObj [("$gte", VStr s)])]) srt lim off))
   = "WHERE " +:+ physicalKey key +:+ " >= '" +:+ s +:+ "'")
  /\
  (columnType d = "number" ->
   isIdKey key = false ->
   createQuery fields
     (Some (mkParams (VObj [(key, VObj [("$gte", VNum n)])]) srt lim off))
   = "WHERE " +:+ key +:+ " >= " +:+ Z_to_string n).
Proof.
  intros Hd Hkey Hs Hn. split.
  - intros Hty.
    rewrite (createQuery_joined fields _ [physicalKey key +:+ " >= '" +:+ s +:+ "'"]);
      try reflexivity; try discriminate.
    cbn [query]. rewrite Object_assign_single by assumption.
    repeat constructor.
    rewrite (fragment_comparison fields Gte).
    + unfold keyIsString. rewrite Hd, Hty, orb_true_r. simpl.
      unfold literal. now rewrite !append_assoc.
    + simpl. now apply negb_true_iff, String.eqb_neq.
  - intros Hty Hid.
    rewrite (createQuery_joined fields _ [key +:+ " >= " +:+ Z_to_string n]);
      try reflexivity; try discriminate.
    cbn [query]. rewrite Object_assign_single by assumption.
    repeat constructor.
    rewrite (fragment_comparison fields Gte).
    + unfold keyIsString, physicalKey. rewrite Hd, Hty, Hid. simpl.
      now rewrite !append_assoc.
    + simpl. now apply negb_true_iff, Z.eqb_neq.
Qed.

Lemma gte_literal_quoting_people :
  createQuery people (Some (onlyQuery (VObj [("name", VObj [("$gte", VStr "M")])])))
  = "WHERE name >= 'M'"
  /\
  createQuery people (Some (onlyQuery (VObj [("age", VObj [("$gte", VNum 18)])])))
  = "WHERE age >= 18".
Proof.
  split.
  - apply (gte_literal_quoting people "name" (mkField "name" "string") "M" 18
             VUndef VUndef VUndef eq_refl);
      [discriminate | discriminate | lia | reflexivity].
  - apply (gte_literal_quoting people "age" (mkField "age" "number") "M" 18
             VUndef VUndef VUndef eq_refl);
      [discriminate | discriminate | lia | reflexivity | reflexivity].
Defined.

(** C3 as stated fails for a number field that is the identifier: its
    literal is quoted. *)
Lemma gte_number_identifier_quoted :
  keyDef [mkField "id" "number"] "id" = Some (mkField "id" "number")
  /\ createQuery [mkField "id" "number"]
       (Some (onlyQuery (VObj [("id", VObj [("$gte", VNum 18)])])))
     = "WHERE _ID >= '18'".
Proof. split; reflexivity. Qed.

(** C4 (the code departs from it).  A condition on [id] or [_id] whose
    operator is not rendered compiles to text that names no column and
    quotes no literal. *)
Theorem identifier_in_condition_unrendered (fields : list Field) (ids : list value)
    (srt lim off : value) :
  createQuery fields (Some (mkParams (VObj [("id", VObj [("$in", VArr ids)])]) srt lim off))
  = "WHERE IMPLEM"
  /\
  createQuery fields (Some (mkParams (VObj [("_id", VObj [("$in", VArr ids)])]) srt lim off))
  = "WHERE IMPLEM".
Proof. split; reflexivity. Qed.

(** C5 (the code departs from it).  An unrendered condition adds its marker
    without a joiner: before another clause the two run together, and at the
    end the trimming meant for the joiner cuts into the marker. *)
Theorem unrendered_condition_breaks_join :
  createQuery people
    (Some (onlyQuery (VObj [("name", VObj [("$in", VArr [VStr "Ann"; VStr "Bob"])]);
                            ("age", VNum 18)])))
  = "WHERE IMPLEMENTARage = 18"
  /\
  createQuery people
    (Some (onlyQuery (VObj [("age", VNum 18);
                            ("name", VObj [("$in", VArr [VStr "Ann"; VStr "Bob"])])])))
  = "WHERE age = 18 AND IMPLEM".
Proof. split; reflexivity. Qed.

(** ** Objects built by assignment *)

Lemma has_false (o : object) (k : string) :
  Props.has o k = false <-> ~ In k (map fst o).
Proof.
  induction o as [|[k' v'] o IH]; simpl.
  - tauto.
  - rewrite orb_false_iff, IH, String.eqb_neq. tauto.
Qed.

(** A new key that is no array index goes last. *)
Lemma set_fresh (o : object) (k : string) (v : value) :
  ~ In k (map fst o) ->
  Props.array_index k = None ->
  Props.set o k v = (o ++ [(k, v)])%list.
Proof.
  intros Hk Hi. unfold Props.set.
  apply has_false in Hk. now rewrite Hk, Hi.
Qed.

Lemma lookup_update (o : object) (k k' : string) (v : value) :
  Props.has o k = true ->
  lookup (Props.update o k v) k' = if k =? k' then v else lookup o k'.
Proof.
  induction o as [|[k0 v0] o IH]; simpl; [discriminate|].
  intros H. destruct (k0 =? k) eqn:E0.
  - apply String.eqb_eq in E0. subst k0. simpl. now destruct (k =? k').
  - simpl in H. simpl. rewrite (IH H).
    destruct (k0 =? k') eqn:E1; [|reflexivity].
    apply String.eqb_eq in E1. subst k0. now rewrite String.eqb_sym, E0.
Qed.

Lemma lookup_insert_index (i : N) (o : object) (k k' : string) (v : value) :
  Props.has o k = false ->
  lookup (Props.insert_index i k v o) k' = if k =? k' then v else lookup o k'.
Proof.
  induction o as [|[k0 v0] o IH]; simpl; [reflexivity|].
  intros H. apply orb_false_iff in H. destruct H as [E0 H].
  destruct (Props.array_index k0) as [j|]; [destruct (j <? i)%N|]; simpl;
    try reflexivity.
  rewrite (IH H). destruct (k0 =? k') eqn:E1; [|reflexivity].
  apply String.eqb_eq in E1. subst k0. now rewrite String.eqb_sym, E0.
Qed.

Lemma lookup_append (o : object) (k k' : string) (v : value) :
  Props.has o k = false ->
  lookup (o ++ [(k, v)])%list k' = if k =? k' then v else lookup o k'.
Proof.
  induction o as [|[k0 v0] o IH]; simpl; [reflexivity|].
  intros H. apply orb_false_iff in H. destruct H as [E0 H].
  rewrite (IH H). destruct (k0 =? k') eqn:E1; [|reflexivity].
  apply String.eqb_eq in E1. subst k0. now rewrite String.eqb_sym, E0.
Qed.

(** Reading after [o[k] = v]. *)
Lemma lookup_set (o : object) (k k' : string) (v : value) :
  lookup (Props.set o k v) k' = if k =? k' then v else lookup o k'.
Proof.
  unfold Props.set. destruct (Props.has o k) eqn:H.
  - now apply lookup_update.
  - destruct (Props.array_index k); [now apply lookup_insert_index|].
    now apply lookup_append.
Qed.

(** ** Sort specifications *)

Lemma sortStep_sortKey (acc : object) (s : string) :
  sortStep (Return acc) (VStr s)
  = Return (Props.assign acc (fst (sortKey s)) (snd (sortKey s))).
Proof. unfold sortStep, sortKey. simpl. now destruct (startsWith_dash s). Qed.

Lemma fold_sortStep (names : list string) (acc : object) :
  List.NoDup (map fst acc ++ map (fun s => fst (sortKey s)) names)%list ->
  Forall (fun s => plainKey (fst (sortKey s)) = true) names ->
  fold_left sortStep (map VStr names) (Return acc)
  = Return (acc ++ map sortKey names)%list.
Proof.
  revert acc. induction names as [|s names IH]; intros acc Hnd Hix;
    cbn [fold_left map].
  - now rewrite app_nil_r.
  - inversion Hix as [|? ? Hs Hrest]; subst.
    unfold plainKey in Hs. apply andb_true_iff in Hs. destruct Hs as [Hp Hi].
    apply negb_true_iff in Hp. destruct (Props.array_index _) eqn:Ei in Hi; [discriminate|].
    rewrite sortStep_sortKey. unfold Props.assign. rewrite Hp, set_fresh; trivial.
    + rewrite IH; trivial.
      * rewrite <- app_assoc. simpl. now destruct (sortKey s).
      * rewrite map_app, <- app_assoc. exact Hnd.
    + simpl in Hnd. apply NoDup_remove_2 in Hnd.
      intros Hin. apply Hnd. apply in_or_app. now left.
Qed.

(** X13.  [transformSort] on a list of field names that stand for pairwise
    different fields, none of them an array index or [__proto__], gives one
    property per name in the order of the list: [-1] under the name without
    its dash for a name with a leading dash, [1] under the name itself
    otherwise. *)
Lemma transformSort_in_order (names : list string) :
  List.NoDup (map (fun s => fst (sortKey s)) names) ->
  Forall (fun s => plainKey (fst (sortKey s)) = true) names ->
  transformSort (VArr (map VStr names)) = Return (VObj (map sortKey names)).
Proof.
  intros Hnd Hix. unfold transformSort. cbn [typeof_string].
  now rewrite (fold_sortStep names [] Hnd Hix).
Qed.

(** An array index among the names moves to the front. *)
Lemma transformSort_index_name :
  transformSort (VArr [VStr "name"; VStr "-7"])
  = Return (VObj [("7", VNum (-1)); ("name", VNum 1)]).
Proof. reflexivity. Qed.

(** A name given twice leaves one property, at the place of the first
    mention and with the direction of the last. *)
Lemma transformSort_repeated_name :
  transformSort (VArr [VStr "age"; VStr "name"; VStr "-age"])
  = Return (VObj [("age", VNum (-1)); ("name", VNum 1)]).
Proof. reflexivity. Qed.

(** C6 (the code departs from it).  [transformSort] turns [["-age", "name"]]
    into descending [age] then ascending [name], but neither [createQuery]
    nor [find] reads [params.sort]: the statement for a request is the one
    for the same request without its sort, and names no sort key. *)
Theorem sort_is_not_compiled (opts : Opts) (fields : list Field)
    (q srt lim off : value) :
  transformSort (VArr [VStr "-age"; VStr "name"])
    = Return (VObj [("age", VNum (-1)); ("name", VNum 1)])
  /\ createQuery fields (Some (mkParams q srt lim off))
     = createQuery fields (Some (mkParams q VUndef lim off))
  /\ find_sql opts fields (Some (mkParams q srt lim off))
     = find_sql opts fields (Some (mkParams q VUndef lim off))
  /\ find_sql app people (Some sortedRequest) = "select * from APP.PEOPLE WHERE age = 18".
Proof. repeat split; reflexivity. Qed.

(** ** Identifiers *)

(** An identifier that is not a string passes through unchanged. *)
Lemma stringToObjectID_other (cls : option ObjectIdClass) (id : value) :
  typeof_string id = false -> stringToObjectID cls id = Return id.
Proof. intros H. unfold stringToObjectID. now rewrite H. Qed.

(** With a binding for [ObjectId], a string it does not accept passes
    through as well. *)
Lemma stringToObjectID_invalid (cls : ObjectIdClass) (s : string) :
  isValid cls (VStr s) = false ->
  stringToObjectID (Some cls) (VStr s) = Return (VStr s).
Proof. intros H. unfold stringToObjectID. simpl. now rewrite H. Qed.

(** A string, the form the adapter's own identifiers have, comes back from
    [objectIDToString] as it is. *)
Lemma objectIDToString_string (s : string) :
  objectIDToString (VStr s) = Return (VStr s).
Proof. unfold objectIDToString. simpl. now rewrite andb_false_r. Qed.

(** C7 (the code departs from it).  In [hdb.js] the identifier [ObjectId] is
    bound nowhere, so [stringToObjectID] throws a [ReferenceError] on every
    string: neither round trip gives the identifier back. *)
Theorem stringToObjectID_string_throws (s : string) :
  stringToObjectID hdb_ObjectId (VStr s) = Throw (ReferenceError "ObjectId")
  /\ bind (stringToObjectID hdb_ObjectId (VStr s)) objectIDToString
     = Throw (ReferenceError "ObjectId")
  /\ bind (objectIDToString (VStr s)) (stringToObjectID hdb_ObjectId)
     = Throw (ReferenceError "ObjectId").
Proof.
  repeat split; try reflexivity.
  now rewrite objectIDToString_string.
Qed.

(** ** Backend failures *)

(** [find] lets what [exec] throws through as it is. *)
Lemma find_rethrows (msg : string) (opts : Opts) (fields : list Field)
    (params : option Params) :
  find (Some (failing msg)) opts fields params = Throw (BackendError msg).
Proof. reflexivity. Qed.

(** C8 (the code departs from it).  When [exec] throws, [count] returns [0]
    and [insert] returns the entity it was given, as they do when no
    connection object exists at all; the error reaches nobody. *)
Theorem backend_failure_is_swallowed (msg : string) (opts : Opts)
    (fields : list Field) (params : option Params) (entity : object) :
  count (Some (failing msg)) opts params = Return (VNum 0)
  /\ insert (Some (failing msg)) opts fields entity = Return entity
  /\ count None opts params = Return (VNum 0)
  /\ insert None opts fields entity = Return entity.
Proof. repeat split; reflexivity. Qed.

(** ** Connecting *)

(** [connect()] on an adapter that has a connection object does nothing. *)
Lemma connect_existing (drv : Driver) (h : list event) (a : Adapter) (c : nat) :
  connectionObj a = Some c -> connect drv h a = (a, []).
Proof. intros H. unfold connect. now rewrite H. Qed.

(** [disconnect()] closes the connection and forgets the connection object,
    unless the driver's [disconnect] throws. *)
Lemma disconnect_forgets (drv : Driver) (h : list event) (a : Adapter) (c : nat) :
  connectionObj a = Some c ->
  disconnectFrom drv h c = Return tt ->
  disconnect drv h a = Return ({| opts := opts a; connectionObj := None |}, [Closed c]).
Proof. intros Ha Hd. unfold disconnect. now rewrite Ha, Hd. Qed.

(** A call creates a connection exactly when it turns an adapter without a
    connection object into one with it, and opens no more than it creates. *)
Lemma connect_created (drv : Driver) (h : list event) (a : Adapter) :
  holds (fst (connect drv h a))
  = holds a + List.length (List.filter isCreated (snd (connect drv h a)))
  /\ List.length (List.filter isOpened (snd (connect drv h a)))
     <= List.length (List.filter isCreated (snd (connect drv h a))).
Proof.
  unfold connect, holds. destruct (connectionObj a) eqn:Ha; simpl.
  - rewrite Ha. lia.
  - destruct (createConnection drv h) as [c|err]; simpl.
    + destruct (connectTo drv _ c _); simpl; lia.
    + rewrite Ha. lia.
Qed.

(** With a driver that does not fail, the adapter has a connection object
    after the call, and what the call created it opened. *)
Lemma connect_reliable (drv : Driver) (h : list event) (a : Adapter) :
  reliable drv ->
  holds (fst (connect drv h a)) = 1
  /\ List.length (List.filter isOpened (snd (connect drv h a)))
     = List.length (List.filter isCreated (snd (connect drv h a))).
Proof.
  intros [Hc Ho]. unfold connect, holds. destruct (connectionObj a) eqn:Ha; simpl.
  - now rewrite Ha.
  - destruct (Hc h) as [c Ec]. rewrite Ec, Ho. simpl. lia.
Qed.

Lemma connect_opts (drv : Driver) (h : list event) (a : Adapter) :
  opts (fst (connect drv h a)) = opts a.
Proof.
  unfold connect. destruct (connectionObj a); [reflexivity|].
  destruct (createConnection drv h) as [c|err]; [|reflexivity].
  now destruct (connectTo drv _ c _).
Qed.

Lemma connect_granted (drv : Driver) (h : list event) (a : Adapter) :
  granted drv h (snd (connect drv h a)).
Proof.
  unfold connect. destruct (connectionObj a); [exact I|].
  destruct (createConnection drv h) as [c|err] eqn:Ec.
  - destruct (connectTo drv _ c _) as [[]|err] eqn:Eo; simpl; rewrite Ec; eauto 8.
  - simpl. rewrite Ec. auto.
Qed.

Lemma granted_app (drv : Driver) (l1 l2 h : list event) :
  granted drv h (l1 ++ l2)%list <-> granted drv h l1 /\ granted drv (h ++ l1)%list l2.
Proof.
  revert h. induction l1 as [|e l1 IH]; intros h; simpl.
  - rewrite app_nil_r. tauto.
  - rewrite IH, <- app_assoc. simpl. tauto.
Qed.

Lemma eventsFor_app (key : string) (l l' : list (string * event)) :
  eventsFor key (l ++ l')%list = (eventsFor key l ++ eventsFor key l')%list.
Proof. unfold eventsFor. now rewrite List.filter_app, map_app. Qed.

Lemma eventsFor_same (key : string) (evs : list event) :
  eventsFor key (map (pair key) evs) = evs.
Proof.
  unfold eventsFor. induction evs as [|e evs IH]; [reflexivity|].
  simpl. rewrite String.eqb_refl. simpl. now rewrite IH.
Qed.

Lemma eventsFor_other (key key' : string) (evs : list event) :
  key' <> key -> eventsFor key (map (pair key') evs) = [].
Proof.
  intros Hne. unfold eventsFor. induction evs as [|e evs IH]; [reflexivity|].
  simpl. apply String.eqb_neq in Hne. now rewrite Hne.
Qed.

Lemma tally_app (kind : event -> bool) (key : string) (l l' : list (string * event)) :
  tally kind key (l ++ l')%list = tally kind key l + tally kind key l'.
Proof. unfold tally. now rewrite eventsFor_app, List.filter_app, List.length_app. Qed.

Lemma tally_other (kind : event -> bool) (key key' : string) (evs : list event) :
  key' <> key -> tally kind key (map (pair key') evs) = 0.
Proof. intros Hne. unfold tally. now rewrite eventsFor_other. Qed.

Lemma tally_same (kind : event -> bool) (key : string) (evs : list event) :
  tally kind key (map (pair key) evs) = List.length (List.filter kind evs).
Proof. unfold tally. now rewrite eventsFor_same. Qed.

Section Registry.

Variable drv : Driver.
Variable optsOf : string -> Opts.

Lemma consistent_start (keys : list string) : consistent drv optsOf (map Pending keys, created).
Proof.
  split; simpl.
  - intros key r H. now rewrite lookup_empty in H.
  - intros k1 k2 r H. now rewrite lookup_empty in H.
  - intros i key r H. rewrite list_lookup_fmap in H.
    destruct (keys !! i); discriminate.
  - intros key. unfold adapterOf. simpl. now rewrite lookup_empty.
  - intros key. reflexivity.
  - exact I.
Qed.

Lemma adapterOf_getAdapter_other (s : Service) (key key' : string) :
  (forall k r, adapters s !! k = Some r -> r < List.length (objects s)) ->
  key <> key' ->
  adapterOf (snd (getAdapter optsOf key s)) key' = adapterOf s key'.
Proof.
  intros Hlt Hne. unfold getAdapter. destruct (adapters s !! key) eqn:E; [reflexivity|].
  unfold adapterOf. simpl. rewrite lookup_insert_ne by assumption.
  destruct (adapters s !! key') as [r|] eqn:E'; [|reflexivity].
  apply lookup_app_l. eauto.
Qed.

Lemma getAdapter_consistent (calls : list call) (s : Service) (i : nat) (key : string) :
  consistent drv optsOf (calls, s) ->
  consistent drv optsOf (<[i := Holding key (fst (getAdapter optsOf key s))]> calls,
              snd (getAdapter optsOf key s)).
Proof.
  intros [Hobj Honce Hhold Hct Hot Hg]. simpl in *.
  assert (Hlt : forall k r, adapters s !! k = Some r -> r < List.length (objects s)).
  { intros k r H. destruct (Hobj k r H) as [a [Ha _]]. now apply lookup_lt_Some in Ha. }
  unfold getAdapter. destruct (adapters s !! key) as [r|] eqn:E.
  - split; simpl; try assumption.
    intros j k r' H.
    apply list_lookup_insert_Some in H as [[_ [Heq _]]|[_ H]]; [|eauto].
    now inversion Heq; subst.
  - split; simpl.
    + intros k r H. destruct (decide (k = key)) as [->|Hne].
      * rewrite lookup_insert_eq in H. inversion H; subst.
        exists {| opts := optsOf key; connectionObj := None |}. split; [|reflexivity].
        rewrite lookup_app_r by lia. now rewrite Nat.sub_diag.
      * rewrite lookup_insert_ne in H by congruence.
        destruct (Hobj k r H) as [a [Ha Ho]]. exists a. split; [|exact Ho].
        now apply lookup_app_l_Some.
    + intros k1 k2 r H1 H2.
      destruct (decide (k1 = key)) as [->|N1]; destruct (decide (k2 = key)) as [->|N2];
        trivial.
      * rewrite lookup_insert_eq in H1. rewrite lookup_insert_ne in H2 by congruence.
        inversion H1; subst. apply Hlt in H2. lia.
      * rewrite lookup_insert_eq in H2. rewrite lookup_insert_ne in H1 by congruence.
        inversion H2; subst. apply Hlt in H1. lia.
      * rewrite lookup_insert_ne in H1, H2 by congruence. eauto.
    + intros j k r H.
      apply list_lookup_insert_Some in H as [[_ [Heq _]]|[_ H]].
      * inversion Heq; subst. apply lookup_insert_eq.
      * destruct (decide (k = key)) as [->|Nk].
        -- apply Hhold in H. congruence.
        -- rewrite lookup_insert_ne by congruence. eauto.
    + intros k. destruct (decide (k = key)) as [->|Nk].
      * rewrite Hct. unfold adapterOf. simpl. rewrite E, lookup_insert_eq.
        rewrite lookup_app_r by lia. now rewrite Nat.sub_diag.
      * rewrite Hct. unfold adapterOf. simpl. rewrite lookup_insert_ne by congruence.
        destruct (adapters s !! k) as [r|] eqn:E'; [|reflexivity].
        rewrite lookup_app_l by eauto. reflexivity.
    + exact Hot.
    + exact Hg.
Qed.

Lemma snd_pair_map (key : string) (evs : list event) :
  map snd (map (pair key) evs) = evs.
Proof. induction evs as [|e evs IH]; [reflexivity|]. simpl. now rewrite IH. Qed.

Lemma adapterOf_connectOn_same (s : Service) (key : string) (r : nat) (a : Adapter) :
  adapters s !! key = Some r ->
  objects s !! r = Some a ->
  adapterOf (connectOn drv key r s) key = Some (fst (connect drv (map snd (log s)) a)).
Proof.
  intros Hk Ha. unfold connectOn. rewrite Ha.
  destruct (connect drv (map snd (log s)) a) as [a' evs].
  unfold adapterOf. simpl. rewrite Hk.
  apply list_lookup_insert_eq. now apply lookup_lt_Some in Ha.
Qed.

Lemma adapterOf_connectOn_other (s : Service) (key key' : string) (r : nat) :
  (forall k1 k2 r, adapters s !! k1 = Some r -> adapters s !! k2 = Some r -> k1 = k2) ->
  adapters s !! key = Some r ->
  key' <> key ->
  adapterOf (connectOn drv key r s) key' = adapterOf s key'.
Proof.
  intros Honce Hk Hne. unfold connectOn. destruct (objects s !! r) as [a|]; [|reflexivity].
  destruct (connect drv (map snd (log s)) a) as [a' evs].
  unfold adapterOf. simpl. destruct (adapters s !! key') as [r'|] eqn:E; [|reflexivity].
  apply list_lookup_insert_ne. intros ->. apply Hne. eauto.
Qed.

Lemma log_connectOn (s : Service) (key : string) (r : nat) (a : Adapter) :
  objects s !! r = Some a ->
  log (connectOn drv key r s)
  = (log s ++ map (pair key) (snd (connect drv (map snd (log s)) a)))%list.
Proof.
  intros Ha. unfold connectOn. rewrite Ha.
  now destruct (connect drv (map snd (log s)) a).
Qed.

Lemma adapters_connectOn (s : Service) (key : string) (r : nat) :
  adapters (connectOn drv key r s) = adapters s.
Proof.
  unfold connectOn. destruct (objects s !! r) as [a|]; [|reflexivity].
  now destruct (connect drv (map snd (log s)) a).
Qed.

Lemma connectOn_consistent (calls : list call) (s : Service) (i : nat)
    (key : string) (r : nat) :
  consistent drv optsOf (calls, s) ->
  calls !! i = Some (Holding key r) ->
  consistent drv optsOf (<[i := Finished key]> calls, connectOn drv key r s).
Proof.
  intros [Hobj Honce Hhold Hct Hot Hg] Hi. simpl in *.
  pose proof (Hhold i key r Hi) as Hk.
  destruct (Hobj key r Hk) as [a [Ha Hopts]].
  destruct (connect_created drv (map snd (log s)) a) as [Hc1 Hc2].
  split; simpl.
  - intros k r' H. rewrite adapters_connectOn in H.
    destruct (decide (k = key)) as [->|Hne].
    + assert (r' = r) by congruence. subst r'.
      pose proof (adapterOf_connectOn_same s key r a Hk Ha) as E.
      unfold adapterOf in E. rewrite adapters_connectOn, Hk in E.
      eexists. split; [exact E|]. now rewrite connect_opts.
    + pose proof (adapterOf_connectOn_other s key k r Honce Hk Hne) as E.
      unfold adapterOf in E. rewrite adapters_connectOn, H in E. rewrite E.
      eauto.
  - intros k1 k2 r'. rewrite adapters_connectOn. apply Honce.
  - intros j k r' H. rewrite adapters_connectOn.
    apply list_lookup_insert_Some in H as [[_ [Heq _]]|[_ H]]; [discriminate|eauto].
  - intros k. rewrite (log_connectOn s key r a Ha), tally_app.
    destruct (decide (k = key)) as [->|Hne].
    + rewrite tally_same, (adapterOf_connectOn_same s key r a Hk Ha), Hc1, Hct.
      unfold adapterOf. now rewrite Hk, Ha.
    + rewrite tally_other by congruence.
      rewrite (adapterOf_connectOn_other s key k r Honce Hk Hne), Hct. lia.
  - intros k. rewrite (log_connectOn s key r a Ha), !tally_app.
    destruct (decide (k = key)) as [->|Hne].
    + rewrite !tally_same. specialize (Hot key). lia.
    + rewrite !tally_other by congruence. specialize (Hot k). lia.
  - rewrite (log_connectOn s key r a Ha), map_app, snd_pair_map.
    apply granted_app. split; [exact Hg|]. apply connect_granted.
Qed.

Lemma advance_consistent (st : list call * Service) (i : nat) :
  consistent drv optsOf st -> consistent drv optsOf (advance drv optsOf st i).
Proof.
  intros H. destruct st as [calls s]. unfold advance. simpl.
  destruct (calls !! i) as [[key|key r|key]|] eqn:Hi; try exact H.
  - pose proof (getAdapter_consistent calls s i key H) as H'.
    now destruct (getAdapter optsOf key s).
  - now apply connectOn_consistent.
Qed.

Lemma interleave_consistent (keys : list string) (schedule : list nat) :
  consistent drv optsOf (interleave drv optsOf keys schedule).
Proof.
  unfold interleave. generalize (consistent_start keys).
  generalize (map Pending keys, created).
  induction schedule as [|i schedule IH]; intros st H; simpl; [exact H|].
  apply IH. now apply advance_consistent.
Qed.

Lemma settled_start (keys : list string) : settled optsOf (map Pending keys, created).
Proof.
  split; simpl.
  - intros key. unfold adapterOf. simpl. now rewrite lookup_empty.
  - intros i key H. rewrite list_lookup_fmap in H.
    destruct (keys !! i); discriminate.
Qed.

Lemma connect_reliable_events (h : list event) (a : Adapter) :
  reliable drv ->
  connectionObj a = None ->
  exists c,
    connect drv h a
    = ({| opts := opts a; connectionObj := Some c |},
       [Created c; Opened c (connParams (opts a))]).
Proof.
  intros [Hc Ho] Ha. destruct (Hc h) as [c Ec]. exists c.
  unfold connect. now rewrite Ha, Ec, Ho.
Qed.

Lemma getAdapter_settled (calls : list call) (s : Service) (i : nat) (key : string) :
  consistent drv optsOf (calls, s) ->
  settled optsOf (calls, s) ->
  settled optsOf (<[i := Holding key (fst (getAdapter optsOf key s))]> calls,
           snd (getAdapter optsOf key s)).
Proof.
  intros [Hobj _ _ _ _ _] [Hev Hfin]. simpl in *.
  assert (Hlt : forall k r, adapters s !! k = Some r -> r < List.length (objects s)).
  { intros k r H. destruct (Hobj k r H) as [a [Ha _]]. now apply lookup_lt_Some in Ha. }
  assert (Hsame : forall k, k <> key ->
            adapterOf (snd (getAdapter optsOf key s)) k = adapterOf s k).
  { intros k Hne. apply adapterOf_getAdapter_other; [exact Hlt | congruence]. }
  assert (Hlog : log (snd (getAdapter optsOf key s)) = log s).
  { unfold getAdapter. now destruct (adapters s !! key). }
  split; simpl.
  - intros k. rewrite Hlog. destruct (decide (k = key)) as [->|Hne].
    + rewrite Hev. unfold getAdapter. destruct (adapters s !! key) as [r|] eqn:E;
        [reflexivity|].
      unfold adapterOf. simpl. rewrite E, lookup_insert_eq.
      rewrite lookup_app_r by lia. now rewrite Nat.sub_diag.
    + now rewrite Hsame.
  - intros j k H.
    apply list_lookup_insert_Some in H as [[_ [Heq _]]|[_ H]]; [discriminate|].
    destruct (Hfin j k H) as [a [c [Ha Hc]]].
    destruct (decide (k = key)) as [->|Hne].
    + unfold getAdapter. destruct (adapters s !! key) as [r|] eqn:E; [eauto|].
      unfold adapterOf in Ha. rewrite E in Ha. discriminate.
    + rewrite Hsame by assumption. eauto.
Qed.

Lemma connectOn_settled (calls : list call) (s : Service) (i : nat)
    (key : string) (r : nat) :
  reliable drv ->
  consistent drv optsOf (calls, s) ->
  settled optsOf (calls, s) ->
  calls !! i = Some (Holding key r) ->
  settled optsOf (<[i := Finished key]> calls, connectOn drv key r s).
Proof.
  intros Hr [Hobj Honce Hhold _ _ _] [Hev Hfin] Hi. simpl in *.
  pose proof (Hhold i key r Hi) as Hk.
  destruct (Hobj key r Hk) as [a [Ha Hopts]].
  assert (Hold : adapterOf s key = Some a) by (unfold adapterOf; now rewrite Hk).
  pose proof (adapterOf_connectOn_same s key r a Hk Ha) as Hnew.
  pose proof (log_connectOn s key r a Ha) as Hlog.
  assert (Hkeep : forall c, connectionObj a = Some c ->
            connect drv (map snd (log s)) a = (a, [])).
  { intros c Hc. exact (connect_existing drv _ a c Hc). }
  split; simpl.
  - intros k. rewrite Hlog, eventsFor_app, Hev.
    destruct (decide (k = key)) as [->|Hne].
    + rewrite eventsFor_same, Hold, Hnew.
      destruct (connectionObj a) as [c|] eqn:Hc.
      * rewrite (Hkeep c eq_refl). simpl. now rewrite Hc.
      * destruct (connect_reliable_events (map snd (log s)) a Hr Hc) as [c Ec].
        rewrite Ec. simpl. now rewrite Hopts.
    + rewrite eventsFor_other by congruence.
      rewrite (adapterOf_connectOn_other s key k r Honce Hk Hne). apply app_nil_r.
  - intros j k H.
    apply list_lookup_insert_Some in H as [[_ [Heq _]]|[_ H]].
    + inversion Heq; subst k. rewrite Hnew.
      destruct (connectionObj a) as [c|] eqn:Hc.
      * rewrite (Hkeep c eq_refl). simpl. eauto.
      * destruct (connect_reliable_events (map snd (log s)) a Hr Hc) as [c Ec].
        rewrite Ec. simpl. eauto.
    + destruct (Hfin j k H) as [a0 [c [Ha0 Hc]]].
      destruct (decide (k = key)) as [->|Hne].
      * rewrite Hnew. assert (a0 = a) by congruence. subst a0.
        rewrite (Hkeep c Hc). simpl. eauto.
      * rewrite (adapterOf_connectOn_other s key k r Honce Hk Hne). eauto.
Qed.

Lemma advance_settled (st : list call * Service) (i : nat) :
  reliable drv -> consistent drv optsOf st -> settled optsOf st -> settled optsOf (advance drv optsOf st i).
Proof.
  intros Hr Hc H. destruct st as [calls s]. unfold advance. simpl.
  destruct (calls !! i) as [[key|key r|key]|] eqn:Hi; try exact H.
  - pose proof (getAdapter_settled calls s i key Hc H) as H'.
    now destruct (getAdapter optsOf key s).
  - now apply connectOn_settled.
Qed.

Lemma interleave_settled (keys : list string) (schedule : list nat) :
  reliable drv -> settled optsOf (interleave drv optsOf keys schedule).
Proof.
  intros Hr. unfold interleave.
  generalize (consistent_start keys) (settled_start keys).
  generalize (map Pending keys, created).
  induction schedule as [|i schedule IH]; intros st Hc H; simpl; [exact H|].
  apply IH; [now apply advance_consistent | now apply advance_settled].
Qed.

End Registry.

Lemma advance_stage (drv : Driver) (optsOf : string -> Opts)
    (st : list call * Service) (i j : nat) (c : call) :
  fst st !! i = Some c ->
  exists c',
    fst (advance drv optsOf st j) !! i = Some c'
    /\ fst (stage c') = fst (stage c)
    /\ snd (stage c') = if Nat.eq_dec j i then Nat.min 2 (S (snd (stage c)))
                        else snd (stage c).
Proof.
  intros Hi. pose proof (lookup_lt_Some _ _ _ Hi) as Hlt.
  unfold advance. destruct (Nat.eq_dec j i) as [->|Hne].
  - rewrite Hi. destruct c as [key|key r|key]; simpl.
    + destruct (getAdapter optsOf key (snd st)) as [r s']. simpl.
      rewrite list_lookup_insert_eq by assumption. eauto.
    + rewrite list_lookup_insert_eq by assumption. eauto.
    + eauto.
  - destruct (fst st !! j) as [[key|key r|key]|]; simpl; eauto.
    + destruct (getAdapter optsOf key (snd st)) as [r s']. simpl.
      rewrite list_lookup_insert_ne by assumption. eauto.
    + rewrite list_lookup_insert_ne by assumption. eauto.
Qed.

Lemma run_stage (drv : Driver) (optsOf : string -> Opts) (schedule : list nat)
    (st : list call * Service) (i : nat) (c : call) :
  fst st !! i = Some c ->
  exists c',
    fst (fold_left (advance drv optsOf) schedule st) !! i = Some c'
    /\ fst (stage c') = fst (stage c)
    /\ snd (stage c') = Nat.min 2 (snd (stage c) + count_occ Nat.eq_dec schedule i).
Proof.
  revert st c. induction schedule as [|j schedule IH]; intros st c Hi.
  - exists c. simpl. repeat split; trivial.
    destruct c; simpl; lia.
  - destruct (advance_stage drv optsOf st i j c Hi) as [c1 [H1 [Hk1 Hn1]]].
    destruct (IH _ c1 H1) as [c' [H' [Hk' Hn']]].
    exists c'. cbn [fold_left]. split; [exact H'|]. split; [congruence|].
    rewrite Hn', Hn1. cbn [count_occ].
    destruct (Nat.eq_dec j i); lia.
Qed.

(** A caller picked twice has called [connect()]. *)
Lemma interleave_finished (drv : Driver) (optsOf : string -> Opts) (keys : list string)
    (schedule : list nat) (i : nat) (key : string) :
  keys !! i = Some key ->
  2 <= count_occ Nat.eq_dec schedule i ->
  fst (interleave drv optsOf keys schedule) !! i = Some (Finished key).
Proof.
  intros Hi Hn. unfold interleave.
  destruct (run_stage drv optsOf schedule (map Pending keys, created) i (Pending key))
    as [c [Hc [Hk Hs]]].
  - simpl. now rewrite list_lookup_fmap, Hi.
  - rewrite Hc. destruct c as [k|k r|k]; cbn [stage fst snd] in Hk, Hs; try lia.
    now subst.
Qed.

(** C9.  Callers that connect the adapter of their key run interleaved in
    any order: each asks the registry for the adapter and later calls
    [connect()] on it, and [connect()] itself runs without a break.
    Whatever the driver does, the calls for one key create at most one
    connection and open no more than they create, and every connection
    counted is one the driver handed out.  With a driver that does not fail,
    once a caller for the key has called [connect()], the calls for the key
    have created one connection and opened it once, and nothing else.  A
    call that finds a connection object does nothing. *)
Theorem connect_once_per_key (drv : Driver) (optsOf : string -> Opts)
    (keys : list string) (schedule : list nat) (key : string) :
  let s := snd (interleave drv optsOf keys schedule) in
  tally isCreated key (log s) <= 1
  /\ tally isOpened key (log s) <= tally isCreated key (log s)
  /\ granted drv [] (map snd (log s))
  /\ (reliable drv ->
      (exists i, keys !! i = Some key /\ 2 <= count_occ Nat.eq_dec schedule i) ->
      exists c, eventsFor key (log s) = [Created c; Opened c (connParams (optsOf key))])
  /\ (forall h a c, connectionObj a = Some c -> connect drv h a = (a, [])).
Proof.
  cbv zeta.
  destruct (interleave_consistent drv optsOf keys schedule) as [_ _ _ Hct Hot Hg].
  split; [|split; [|split; [|split]]].
  - rewrite Hct. destruct (adapterOf _ key) as [a|]; [|lia].
    unfold holds. destruct (connectionObj a); lia.
  - apply Hot.
  - exact Hg.
  - intros Hr [i [Hi Hn]].
    destruct (interleave_settled drv optsOf keys schedule Hr) as [Hev Hfin].
    destruct (Hfin i key (interleave_finished drv optsOf keys schedule i key Hi Hn))
      as [a [c [Ha Hc]]].
    exists c. now rewrite Hev, Ha, Hc.
  - intros h a c Hc. exact (connect_existing drv h a c Hc).
Qed.

Lemma connect_once_per_key_tenants :
  exists c,
    eventsFor "t1"
      (log (snd (interleave countingDriver (fun _ => app) ["t1"; "t2"; "t1"; "t1"]
                   [0; 2; 3; 1; 3; 0; 2; 1])))
    = [Created c; Opened c (connParams app)].
Proof.
  apply (connect_once_per_key countingDriver (fun _ => app) ["t1"; "t2"; "t1"; "t1"]
           [0; 2; 3; 1; 3; 0; 2; 1] "t1").
  - split; [intros h; eexists; reflexivity | reflexivity].
  - exists 0. split; [reflexivity | simpl; lia].
Defined.

(** ** The mixin's options *)

Lemma mergeDefault_objects (o src : object) :
  mergeDefault (VObj o) (VObj src) = VObj (mergeEach src o).
Proof.
  simpl. f_equal. revert o.
  induction src as [|[k d] src IH]; intros o; [reflexivity|].
  simpl. apply IH.
Qed.

(** Merging defaults leaves a property alone that is none of theirs. *)
Lemma lookup_mergeEach_other (src o : object) (k : string) :
  ~ In k (map fst src) -> lookup (mergeEach src o) k = lookup o k.
Proof.
  revert o. induction src as [|[k0 d0] src IH]; intros o Hk; [reflexivity|].
  simpl in Hk. change (mergeEach ((k0, d0) :: src) o)
    with (mergeEach src (Props.set o k0 (mergeDefault (lookup o k0) d0))).
  rewrite IH by tauto. rewrite lookup_set.
  destruct (String.eqb_spec k0 k) as [->|_]; [tauto | reflexivity].
Qed.

(** A property the defaults name once is merged with its default. *)
Lemma lookup_mergeEach (src o : object) (k : string) (d : value) :
  List.NoDup (map fst src) ->
  In (k, d) src ->
  lookup (mergeEach src o) k = mergeDefault (lookup o k) d.
Proof.
  revert o. induction src as [|[k0 d0] src IH]; intros o Hnd Hin; [destruct Hin|].
  change (mergeEach ((k0, d0) :: src) o)
    with (mergeEach src (Props.set o k0 (mergeDefault (lookup o k0) d0))).
  inversion Hnd as [|? ? Hk0 Hnd']; subst. destruct Hin as [E|Hin].
  - inversion E; subst. rewrite lookup_mergeEach_other by exact Hk0.
    now rewrite lookup_set, String.eqb_refl.
  - rewrite (IH _ Hnd' Hin), lookup_set.
    destruct (String.eqb_spec k0 k) as [->|_]; [|reflexivity].
    exfalso. apply Hk0. change k with (fst (k, d)). now apply in_map.
Qed.

Lemma defaultsDeep_mergeEach (mixinOpts : option object) :
  defaultsDeep mixinOpts defaultOpts = mergeEach defaultOpts (optionsObject mixinOpts).
Proof. unfold defaultsDeep. now rewrite mergeDefault_objects. Qed.

Lemma defaultOpts_keys : List.NoDup (map fst defaultOpts).
Proof.
  simpl. repeat (constructor; [simpl; intuition discriminate|]). constructor.
Qed.

(** The [cache] option after the defaults: the caller's, merged with
    [{ enable: true, eventName: null }]. *)
Lemma cache_after_defaults (mixinOpts : option object) :
  lookup (defaultsDeep mixinOpts defaultOpts) "cache"
  = mergeDefault (lookup (optionsObject mixinOpts) "cache")
      (VObj [("enable", VBool true); ("eventName", VNull)]).
Proof.
  rewrite defaultsDeep_mergeEach.
  apply lookup_mergeEach; [exact defaultOpts_keys | simpl; tauto].
Qed.

(** The defaults never reach [cache.enabled]: after them it is what the
    caller gave. *)
Lemma enabled_after_defaults (mixinOpts : option object) :
  get (lookup (defaultsDeep mixinOpts defaultOpts) "cache") "enabled"
  = get (lookup (optionsObject mixinOpts) "cache") "enabled".
Proof.
  rewrite cache_after_defaults.
  destruct (lookup (optionsObject mixinOpts) "cache") as [| |b|n|s|xs|c];
    try reflexivity.
  rewrite mergeDefault_objects. cbn [get].
  apply lookup_mergeEach_other. simpl. intuition discriminate.
Qed.

(** C10.  The defaults carry [cache.enable = true], and a caller who gives
    no [cache] gets exactly that; but the event block is attached on
    [cache.enabled], which the defaults do not set.  So for options that do
    not set [cache.enabled] the mixin returns a schema without [events]. *)
Theorem default_options_subscribe_nothing
    (Actions DbMethods Transform Validation : object -> object)
    (thisArg : value) (mixinOpts : option object) :
  get (lookup (optionsObject mixinOpts) "cache") "enabled" = VUndef ->
  get (lookup defaultOpts "cache") "enable" = VBool true
  /\ get (lookup (defaultsDeep None defaultOpts) "cache") "enable" = VBool true
  /\ get (lookup (defaultsDeep mixinOpts defaultOpts) "cache") "enabled" = VUndef
  /\ exists sch,
       DatabaseMixin Actions DbMethods Transform Validation thisArg mixinOpts = Return sch
       /\ events sch = None.
Proof.
  intros Hu.
  assert (He : get (lookup (defaultsDeep mixinOpts defaultOpts) "cache") "enabled" = VUndef)
    by now rewrite enabled_after_defaults.
  repeat split; try reflexivity; try exact He.
  unfold DatabaseMixin. rewrite He. simpl truthy. rewrite andb_false_r.
  eexists. split; reflexivity.
Qed.

Lemma default_options_subscribe_nothing_posts :
  exists sch,
    DatabaseMixin (fun _ => []) (fun _ => []) (fun _ => []) (fun _ => []) VUndef
      (Some [("cache", VObj [("eventName", VStr "cache.clean.posts")]);
             ("maxLimit", VNum 100)])
    = Return sch
    /\ events sch = None.
Proof.
  apply (default_options_subscribe_nothing (fun _ => []) (fun _ => []) (fun _ => [])
           (fun _ => []) VUndef
           (Some [("cache", VObj [("eventName", VStr "cache.clean.posts")]);
                  ("maxLimit", VNum 100)])).
  reflexivity.
Defined.

(** With [cache.enabled] set and an event name given, the schema subscribes
    to that event; without a name the plain call throws on [this.name]. *)
Lemma enabled_cache_subscribes :
  (exists sch,
     DatabaseMixin (fun _ => []) (fun _ => []) (fun _ => []) (fun _ => []) VUndef
       (Some [("cache", VObj [("enabled", VBool true);
                              ("eventName", VStr "cache.clean.posts")])])
     = Return sch
     /\ events sch = Some ["cache.clean.posts"])
  /\ DatabaseMixin (fun _ => []) (fun _ => []) (fun _ => []) (fun _ => []) VUndef
       (Some [("cache", VObj [("enabled", VBool true)])])
     = Throw (TypeError "Cannot read properties of undefined (reading 'name')").
Proof. split; [eexists; split; reflexivity | reflexivity]. Qed.

(** X22.  The schema has an [events] block only when the caller set
    [cache.enabled] to a truthy value. *)
Lemma events_only_when_enabled
    (Actions DbMethods Transform Validation : object -> object)
    (thisArg : value) (mixinOpts : option object) (sch : ServiceSchema) :
  DatabaseMixin Actions DbMethods Transform Validation thisArg mixinOpts = Return sch ->
  events sch <> None ->
  truthy (get (lookup (optionsObject mixinOpts) "cache") "enabled") = true.
Proof.
  unfold DatabaseMixin. rewrite enabled_after_defaults.
  destruct (truthy (get (lookup (optionsObject mixinOpts) "cache") "enabled"));
    [reflexivity|].
  rewrite andb_false_r. intros H. inversion H. simpl. congruence.
Qed.

(** * Further properties *)

(** ** What [createQuery] and [find] produce *)

Lemma rendered_conditions_joined_people :
  createQuery people
    (Some (onlyQuery (VObj [("__proto__", VNum 5); ("name", VStr "O'Neil");
                            ("age", VObj [("$gte", VNum 18)])])))
  = "WHERE name = 'O'Neil' AND age >= 18".
Proof.
  apply (rendered_conditions_joined people
           (onlyQuery (VObj [("__proto__", VNum 5); ("name", VStr "O'Neil");
                             ("age", VObj [("$gte", VNum 18)])]))
           ["name = 'O'Neil'"; "age >= 18"]); [reflexivity | | discriminate].
  change (Forall2 (renders people)
            [("name", VStr "O'Neil"); ("age", VObj [("$gte", VNum 18)])]
            ["name = 'O'Neil'"; "age >= 18"]).
  constructor; [exact (renders_literal people "name" (VStr "O'Neil") eq_refl)|].
  constructor; [exact (renders_comparison people Gte "age" (VNum 18) eq_refl)|].
  constructor.
Defined.

Lemma identifier_clause_people :
  fragment people ("id", VNum 7) = "_ID = '7' AND "
  /\ fragment [mkField "_id" "number"] ("_id", VObj [("$ne", VNum 7)]) = "_ID != '7' AND ".
Proof.
  split.
  - exact (proj1 (identifier_clause people "id" (VNum 7) Ne eq_refl) eq_refl).
  - exact (proj2 (identifier_clause [mkField "_id" "number"] "_id" (VNum 7) Ne eq_refl)
             eq_refl).
Defined.

Lemma fragments_cons (fields : list Field) (kv : string * value)
    (es : list (string * value)) :
  fragments fields (kv :: es) = fragment fields kv +:+ fragments fields es.
Proof. reflexivity. Qed.

Lemma fragments_app (fields : list Field) (es1 es2 : list (string * value)) :
  fragments fields (es1 ++ es2)%list = fragments fields es1 +:+ fragments fields es2.
Proof.
  induction es1 as [|kv es1 IH]; [reflexivity|].
  simpl. now rewrite IH, append_assoc.
Qed.

(** What an entry adds is nothing, the marker, or a clause with its joiner. *)
Lemma fragment_cases (fields : list Field) (kv : string * value) :
  fragment fields kv = ""
  \/ fragment fields kv = "IMPLEMENTAR"
  \/ exists body, fragment fields kv = body +:+ " AND ".
Proof.
  destruct kv as [key val]. unfold fragment, queryEntry.
  repeat match goal with
         | |- context [if ?b then _ else _] => destruct b
         end;
    try (left; reflexivity); try (right; left; reflexivity);
    right; right; eexists; rewrite clause_literal, <- !append_assoc; reflexivity.
Qed.

Lemma fragments_length (fields : list Field) (es : list (string * value)) :
  fragments fields es = "" \/ 5 <= String.length (fragments fields es).
Proof.
  induction es as [|kv es IH]; [now left|].
  simpl. destruct (fragment_cases fields kv) as [E|[E|[body E]]]; rewrite E.
  - exact IH.
  - right. rewrite length_append. simpl. lia.
  - right. rewrite !length_append. simpl. lia.
Qed.

Lemma substring_append (a b : string) (m : nat) :
  substring 0 (String.length a + m) (a +:+ b) = a +:+ substring 0 m b.
Proof.
  induction a as [|x a IH]; [reflexivity|].
  rewrite !append_cons. simpl. now rewrite IH.
Qed.

Lemma dropLast_append_r (a b : string) (n : nat) :
  n <= String.length b -> dropLast n (a +:+ b) = a +:+ dropLast n b.
Proof.
  intros H. unfold dropLast. rewrite length_append.
  replace (String.length a + String.length b - n)
    with (String.length a + (String.length b - n)) by lia.
  apply substring_append.
Qed.

(** The compiled text is empty or starts with ["WHERE "]. *)
Lemma createQuery_shape (fields : list Field) (params : option Params) :
  createQuery fields params = ""
  \/ exists r, createQuery fields params = "WHERE " +:+ r.
Proof.
  destruct params as [p|]; [|now left].
  rewrite createQuery_fragments. cbv zeta.
  destruct (fragments_length fields
              (if truthy (query p) then Object_assign (query p) else [])) as [E|L].
  - rewrite E. now left.
  - right. rewrite append_longer.
    + simpl negb. cbv iota. rewrite dropLast_append_r by exact L.
      eexists. reflexivity.
    + intros E. rewrite E in L. simpl in L. lia.
Qed.

(** X2.  The statement [find] sends is determined by the table and the
    conditions of the query alone: it is the bare [select * from] of the
    table when the conditions add no text, and otherwise that, [" WHERE "]
    and the text of the conditions less its last five characters.  Nothing
    else follows the table: requests that differ in [sort], [limit] or
    [offset] only give the same statement. *)
Theorem find_statement_shape (opts : Opts) (fields : list Field) :
  (forall p : Params,
     let text :=
       if truthy (query p) then fragments fields (Object_assign (query p)) else "" in
     find_sql opts fields (Some p)
     = "select * from " +:+ tableName opts
         +:+ (if text =? "" then "" else " WHERE " +:+ dropLast 5 text))
  /\ find_sql opts fields None = "select * from " +:+ tableName opts
  /\ (forall p p' : Params,
        query p = query p' ->
        find_sql opts fields (Some p) = find_sql opts fields (Some p')).
Proof.
  assert (shape : forall p : Params,
     find_sql opts fields (Some p)
     = "select * from " +:+ tableName opts
         +:+ (if (if truthy (query p) then fragments fields (Object_assign (query p))
                  else "") =? ""
              then ""
              else " WHERE " +:+
                   dropLast 5 (if truthy (query p)
                               then fragments fields (Object_assign (query p))
                               else ""))).
  { intros p. unfold find_sql. destruct (truthy (query p)) eqn:Hq.
    - rewrite createQuery_fragments, Hq. cbv zeta.
      destruct (fragments_length fields (Object_assign (query p))) as [E|L].
      + rewrite E, !append_empty_r. reflexivity.
      + assert (Hne : fragments fields (Object_assign (query p)) <> "").
        { intros E. rewrite E in L. simpl in L. lia. }
        rewrite (append_longer _ _ Hne). cbn [negb].
        rewrite dropLast_append_r by exact L.
        apply String.eqb_neq in Hne. rewrite Hne.
        replace ("WHERE " +:+ dropLast 5 (fragments fields (Object_assign (query p))) =? "")
          with false by reflexivity.
        cbn [negb]. now rewrite !append_assoc.
    - cbn. now rewrite append_empty_r. }
  split; [exact shape | split; [reflexivity|]].
  intros p p' Hq. now rewrite !shape, Hq.
Qed.

(** X3.  A comparison whose operand is falsy ([0], the empty string,
    [false], [null]) counts for nothing: the filter compiles as if the
    condition were not in it. *)
Theorem falsy_operand_condition_vanishes (fields : list Field) (c : comparison_op)
    (key : string) (v : value) (es1 es2 : list (string * value)) (srt lim off : value) :
  truthy v = false ->
  createQuery fields
    (Some (mkParams (VObj (es1 ++ (key, VObj [(opName c, v)]) :: es2)%list) srt lim off))
  = createQuery fields (Some (mkParams (VObj (es1 ++ es2)%list) srt lim off)).
Proof.
  intros Hv. rewrite !createQuery_fragments. cbn [query truthy].
  change ((key, VObj [(opName c, v)]) :: es2)
    with ([(key, VObj [(opName c, v)])] ++ es2)%list.
  rewrite !Object_assign_app, !fragments_app.
  destruct (String.eqb_spec key "__proto__") as [->|Hkey].
  - reflexivity.
  - rewrite Object_assign_single by assumption.
    rewrite fragments_cons, (fragment_falsy_operand fields c key v Hv).
    reflexivity.
Qed.

Lemma falsy_operand_condition_vanishes_people :
  createQuery people
    (Some (onlyQuery (VObj [("name", VStr "Ann"); ("age", VObj [("$gt", VNum 0)])])))
  = createQuery people (Some (onlyQuery (VObj [("name", VStr "Ann")]))).
Proof.
  exact (falsy_operand_condition_vanishes people Gt "age" (VNum 0)
           [("name", VStr "Ann")] [] VUndef VUndef VUndef eq_refl).
Defined.

(** X5.  When [exec] answers with rows, [find] returns as many rows, each
    with [_id] set to its [_ID] and every other property as it was; when
    [exec] throws, [find] throws the same error. *)
Theorem find_rows_get_id (conn : Connection) (opts : Opts) (fields : list Field)
    (params : option Params) :
  (forall rows,
     conn (find_sql opts fields params) = Return (Rows rows) ->
     exists rows',
       find (Some conn) opts fields params = Return (Rows rows')
       /\ Forall2 (fun row row' =>
                     lookup row' "_id" = lookup row "_ID"
                     /\ forall k, k <> "_id" -> lookup row' k = lookup row k)
                  rows rows')
  /\
  (forall err,
     conn (find_sql opts fields params) = Throw err ->
     find (Some conn) opts fields params = Throw err).
Proof.
  split.
  - intros rows H. unfold find, exec. rewrite H. simpl.
    eexists. split; [reflexivity|]. clear H.
    induction rows as [|row rows IH]; simpl; constructor; [|exact IH].
    split.
    + now rewrite lookup_set, String.eqb_refl.
    + intros k Hk. rewrite lookup_set.
      destruct (String.eqb_spec "_id" k); [congruence | reflexivity].
  - intros err H. unfold find, exec. now rewrite H.
Qed.

Lemma find_rows_get_id_people :
  exists rows',
    find (Some (fun _ => Return (Rows [[("_ID", VStr "a1"); ("NAME", VStr "Ann")]])))
         app people None
    = Return (Rows rows')
    /\ Forall2 (fun row row' =>
                  lookup row' "_id" = lookup row "_ID"
                  /\ forall k, k <> "_id" -> lookup row' k = lookup row k)
               [[("_ID", VStr "a1"); ("NAME", VStr "Ann")]] rows'.
Proof.
  exact (proj1 (find_rows_get_id
                  (fun _ => Return (Rows [[("_ID", VStr "a1"); ("NAME", VStr "Ann")]]))
                  app people None)
               [[("_ID", VStr "a1"); ("NAME", VStr "Ann")]] eq_refl).
Defined.

(** ** [count], [insert] and [updateById] *)

(** X6.  [count] never fails and never looks at its filter: it returns the
    first value of the first row [exec] answers with, and [0] in every other
    case (no row, an answer that is no row set, an error, no connection). *)
Theorem count_first_value_or_zero (conn : option Connection) (opts : Opts)
    (params : option Params) :
  count conn opts params
  = Return (match exec conn (count_sql opts) with
            | Return (Rows (row :: _)) => hd VUndef (map snd row)
            | _ => VNum 0
            end).
Proof.
  unfold count. destruct (exec conn (count_sql opts)) as [[rows|n|]|err];
    try reflexivity.
  - now destruct rows.
  - simpl. now destruct (n =? 0)%Z.
Qed.

Lemma followed_app (sep : string) (l1 l2 : list string) :
  followed sep (l1 ++ l2)%list = followed sep l1 +:+ followed sep l2.
Proof.
  induction l1 as [|x l1 IH]; [reflexivity|].
  simpl. now rewrite IH, !append_assoc.
Qed.

(** Without the last separator, texts followed by a separator are the texts
    joined by it. *)
Lemma dropLast_followed (sep : string) (l : list string) :
  dropLast (String.length sep) (followed sep l) = String.concat sep l.
Proof.
  induction l as [|x l IH]; [reflexivity|].
  destruct l as [|y l].
  - simpl. rewrite append_empty_r. apply dropLast_append.
  - change (followed sep (x :: y :: l)) with (x +:+ sep +:+ followed sep (y :: l)).
    change (String.concat sep (x :: y :: l))
      with (x +:+ sep +:+ String.concat sep (y :: l)).
    rewrite <- IH, <- !append_assoc. apply dropLast_append_r.
    simpl. rewrite !length_append. lia.
Qed.

Lemma fold_insertField (entity : object) (fields : list Field) (a b : string) :
  fold_left (insertField entity) fields (a, b)
  = (a +:+ followed ", " (map columnName (insertColumns fields entity)),
     b +:+ followed ", " (map (insertValue entity) (insertColumns fields entity))).
Proof.
  revert a b. induction fields as [|f fields IH]; intros a b.
  - simpl. now rewrite !append_empty_r.
  - cbn [fold_left]. unfold insertField at 2. unfold insertColumns. cbn [List.filter].
    destruct (member_truthy (read entity (columnName f))).
    + fold (insertColumns fields entity).
      destruct (columnType f =? "string") eqn:Ety; rewrite IH; cbn [map followed fold_right];
        unfold insertValue at 2; rewrite Ety;
        now rewrite !append_assoc.
    + fold (insertColumns fields entity). apply IH.
Qed.

(** X7.  The statement of [insert] names the columns of the fields under
    whose column name the entity gives a truthy member, in the order of the
    fields, and gives the members in the same order, those of [string]
    columns between single quotes; both lists are joined by [", "] with
    nothing after the last entry.  The member is read as [entity[column]]
    reads it: an own property, or what every object inherits under that
    name.  An own value that is [0], [false] or empty is left out with its
    column. *)
Theorem insert_statement (opts : Opts) (fields : list Field) (entity : object) :
  insert_sql opts fields entity
  = "insert into " +:+ tableName opts
      +:+ "(" +:+ String.concat ", " (map columnName (insertColumns fields entity))
      +:+ ") VALUES("
      +:+ String.concat ", " (map (insertValue entity) (insertColumns fields entity))
      +:+ ")".
Proof.
  unfold insert_sql. rewrite fold_insertField, !append_nil.
  now rewrite !(dropLast_followed ", ").
Qed.

(** A field whose column has the name of a method every object has is
    written for every entity, with the text of the method. *)
Lemma insert_inherited_member :
  insert_sql app [mkField "name" "string"; mkField "constructor" "string"]
    [("name", VStr "Ann")]
  = "insert into APP.PEOPLE(name, constructor) VALUES('Ann', 'function Object() { [native code] }')".
Proof. reflexivity. Qed.

Lemma fold_updateEntry (fields : list Field) (changes : object) (acc : string) :
  fold_left (updateEntry fields) changes acc
  = acc +:+ followed "," (map (assignment fields) changes).
Proof.
  revert acc. induction changes as [|[key val] changes IH]; intros acc.
  - simpl. now rewrite append_empty_r.
  - cbn [fold_left map followed fold_right]. rewrite IH.
    unfold updateEntry, assignment, literal. cbn [fst snd].
    destruct (match keyDef fields key with Some d => columnType d =? "string" | None => false end);
      now rewrite !append_assoc.
Qed.

Lemma setString_not_empty (fields : list Field) (changes : object) :
  changes <> [] -> (fold_left (updateEntry fields) changes "" =? "") = false.
Proof.
  intros H. rewrite fold_updateEntry, append_nil.
  destruct changes as [|kv changes]; [congruence|]. reflexivity.
Qed.

(** X8.  The statement of [updateById] lists one assignment per change, in
    the order of the changes and joined by commas, each with a blank before
    its key; the [WHERE] that follows is put directly after the last
    assignment, with no blank between them, and compares [_ID] with the id
    between single quotes. *)
Theorem update_statement (opts : Opts) (fields : list Field) (id : value)
    (changes : object) :
  update_sql opts (fold_left (updateEntry fields) changes "") id
  = "UPDATE " +:+ tableName opts +:+ " SET "
      +:+ String.concat "," (map (assignment fields) changes)
      +:+ "WHERE _ID = '" +:+ toString id +:+ "'".
Proof.
  unfold update_sql. rewrite fold_updateEntry, append_nil.
  now rewrite (dropLast_followed ",").
Qed.

(** X9.  [updateById] says nothing about an update that did not happen: for
    a falsy id or no changes it returns [undefined] whatever the connection
    is, and when [exec] throws on the [UPDATE], or answers that no row was
    touched, it returns [undefined] as well. *)
Theorem updateById_silent (conn : option Connection) (opts : Opts) (fields : list Field)
    (id : value) (changes : object) :
  (truthy id = false \/ changes = [] ->
   updateById conn opts fields id changes = Return VUndef)
  /\
  (forall err,
     exec conn (update_sql opts (fold_left (updateEntry fields) changes "") id) = Throw err ->
     updateById conn opts fields id changes = Return VUndef)
  /\
  (exec conn (update_sql opts (fold_left (updateEntry fields) changes "") id)
     = Return (Affected 0) ->
   updateById conn opts fields id changes = Return VUndef).
Proof.
  unfold updateById. repeat split.
  - intros [H| ->]; [now rewrite H | destruct (truthy id); reflexivity].
  - intros err H. rewrite H. destruct (truthy id); [|reflexivity].
    destruct (negb _); reflexivity.
  - intros H. rewrite H. destruct (truthy id); [|reflexivity].
    destruct (negb _); reflexivity.
Qed.

Lemma updateById_silent_people :
  updateById (Some (failing "no such column")) app people (VStr "a1")
    [("name", VStr "Ann")]
  = Return VUndef.
Proof.
  exact (proj1 (proj2 (updateById_silent (Some (failing "no such column")) app people
                         (VStr "a1") [("name", VStr "Ann")]))
               (BackendError "no such column") eq_refl).
Defined.

(** X10.  When the [UPDATE] touched a row, [updateById] reads the entity
    back with [find] on the filter [{id: id}] and returns the first row, with
    [_id] set to its [_ID]. *)
Theorem updateById_reads_back (conn : Connection) (opts : Opts) (fields : list Field)
    (id : value) (changes : object) (n : Z) (row : object) (rows : list object) :
  truthy id = true ->
  changes <> [] ->
  n <> 0%Z ->
  conn (update_sql opts (fold_left (updateEntry fields) changes "") id)
    = Return (Affected n) ->
  conn (find_sql opts fields (Some (onlyQuery (VObj [("id", id)]))))
    = Return (Rows (row :: rows)) ->
  updateById (Some conn) opts fields id changes
  = Return (VObj (Props.set row "_id" (lookup row "_ID"))).
Proof.
  intros Hid Hch Hn Hu Hf. unfold updateById.
  rewrite Hid, (setString_not_empty fields changes Hch). simpl negb. cbv iota.
  unfold exec at 1. rewrite Hu. simpl reply_truthy.
  apply Z.eqb_neq in Hn. rewrite Hn. simpl negb. cbv iota.
  unfold find, exec. rewrite Hf. reflexivity.
Qed.

Lemma updateById_reads_back_people :
  updateById
    (Some (fun sql =>
             if String.prefix "UPDATE" sql then Return (Affected 1)
             else Return (Rows [[("_ID", VStr "a1"); ("name", VStr "Ann")]])))
    app people (VStr "a1") [("name", VStr "Ann")]
  = Return (VObj [("_ID", VStr "a1"); ("name", VStr "Ann"); ("_id", VStr "a1")]).
Proof.
  exact (updateById_reads_back
           (fun sql =>
              if String.prefix "UPDATE" sql then Return (Affected 1)
              else Return (Rows [[("_ID", VStr "a1"); ("name", VStr "Ann")]]))
           app people (VStr "a1") [("name", VStr "Ann")] 1
           [("_ID", VStr "a1"); ("name", VStr "Ann")] []
           eq_refl ltac:(discriminate) ltac:(discriminate) eq_refl eq_refl).
Defined.

(** ** Connecting and disconnecting *)

(** X11.  When the driver hands out a connection object and then fails to
    open it, [connect()] keeps the object and logs the error; from then on
    every [connect()] finds the object and does nothing, so the open is never
    tried again. *)
Theorem failed_open_is_kept (drv : Driver) (h : list event) (a : Adapter)
    (c : nat) (err : error) :
  connectionObj a = None ->
  createConnection drv h = Return c ->
  connectTo drv (h ++ [Created c])%list c (connParams (opts a)) = Throw err ->
  connect drv h a = ({| opts := opts a; connectionObj := Some c |}, [Created c; Logged err])
  /\ forall h',
       connect drv h' {| opts := opts a; connectionObj := Some c |}
       = ({| opts := opts a; connectionObj := Some c |}, []).
Proof.
  intros Ha Hc Ho. split.
  - unfold connect. now rewrite Ha, Hc, Ho.
  - intros h'. reflexivity.
Qed.

Lemma failed_open_is_kept_refusing :
  connect refusingDriver [] {| opts := app; connectionObj := None |}
  = ({| opts := app; connectionObj := Some 0 |},
     [Created 0; Logged (BackendError "connection refused")])
  /\ forall h',
       connect refusingDriver h' {| opts := app; connectionObj := Some 0 |}
       = ({| opts := app; connectionObj := Some 0 |}, []).
Proof.
  exact (failed_open_is_kept refusingDriver [] {| opts := app; connectionObj := None |}
           0 (BackendError "connection refused") eq_refl eq_refl eq_refl).
Defined.

(** X12.  [disconnect()] closes the connection and forgets the connection
    object, after which [connect()] sets up a new connection; when the
    driver's [disconnect] throws, the error goes to the caller and the adapter
    keeps its connection object. *)
Theorem connect_after_disconnect (drv : Driver) (h h' : list event) (a : Adapter)
    (c : nat) :
  connectionObj a = Some c ->
  (disconnectFrom drv h c = Return tt ->
   reliable drv ->
   disconnect drv h a = Return ({| opts := opts a; connectionObj := None |}, [Closed c])
   /\ exists c',
        connect drv h' {| opts := opts a; connectionObj := None |}
        = ({| opts := opts a; connectionObj := Some c' |},
           [Created c'; Opened c' (connParams (opts a))]))
  /\
  (forall err, disconnectFrom drv h c = Throw err -> disconnect drv h a = Throw err).
Proof.
  intros Ha. split.
  - intros Hd [Hc Ho]. split.
    + unfold disconnect. now rewrite Ha, Hd.
    + destruct (Hc h') as [c' Ec]. exists c'. unfold connect. simpl.
      now rewrite Ec, Ho.
  - intros err Hd. unfold disconnect. now rewrite Ha, Hd.
Qed.

Lemma connect_after_disconnect_counting :
  disconnect countingDriver [Created 0; Opened 0 (connParams app)]
    {| opts := app; connectionObj := Some 0 |}
  = Return ({| opts := app; connectionObj := None |}, [Closed 0])
  /\ exists c',
       connect countingDriver [Created 0; Opened 0 (connParams app); Closed 0]
         {| opts := app; connectionObj := None |}
       = ({| opts := app; connectionObj := Some c' |},
          [Created c'; Opened c' (connParams app)]).
Proof.
  apply (proj1 (connect_after_disconnect countingDriver
                  [Created 0; Opened 0 (connParams app)]
                  [Created 0; Opened 0 (connParams app); Closed 0]
                  {| opts := app; connectionObj := Some 0 |} 0 eq_refl)).
  - reflexivity.
  - split; [intros h; eexists; reflexivity | reflexivity].
Defined.

(** ** Sort specifications, continued *)

Lemma transformSort_in_order_people :
  transformSort (VArr (map VStr ["-age"; "name"]))
  = Return (VObj (map sortKey ["-age"; "name"])).
Proof.
  apply (transformSort_in_order ["-age"; "name"]).
  - repeat constructor; simpl; intuition discriminate.
  - repeat constructor.
Defined.

Lemma lookup_assign (o : object) (k k' : string) (v : value) :
  k' <> "__proto__" ->
  lookup (Props.assign o k v) k' = if k =? k' then v else lookup o k'.
Proof.
  intros Hk. unfold Props.assign.
  destruct (String.eqb_spec k "__proto__") as [->|_]; [|apply lookup_set].
  destruct (String.eqb_spec "__proto__" k'); [congruence | reflexivity].
Qed.

Lemma fold_sortStep_lookup (names : list string) (acc : object) (k : string) :
  k <> "__proto__" ->
  exists o,
    fold_left sortStep (map VStr names) (Return acc) = Return o
    /\ lookup o k
       = fold_left (fun acc s => if fst (sortKey s) =? k then snd (sortKey s) else acc)
                   names (lookup acc k).
Proof.
  intros Hk. revert acc. induction names as [|s names IH]; intros acc.
  - exists acc. now split.
  - cbn [map fold_left]. rewrite sortStep_sortKey.
    destruct (IH (Props.assign acc (fst (sortKey s)) (snd (sortKey s)))) as [o [Ho Hl]].
    exists o. split; [exact Ho|]. now rewrite Hl, lookup_assign.
Qed.

(** X14.  On any list of field names [transformSort] returns an object, and
    the direction it holds for a field is the one its last mention in the
    list gives: [-1] if that mention has a leading dash, [1] if not. *)
Theorem transformSort_last_mention (names : list string) (k : string) :
  k <> "__proto__" ->
  exists o,
    transformSort (VArr (map VStr names)) = Return (VObj o)
    /\ lookup o k = lastDirection names k.
Proof.
  intros Hk. destruct (fold_sortStep_lookup names [] k Hk) as [o [Ho Hl]].
  exists o. unfold transformSort. cbn [typeof_string]. rewrite Ho. now split.
Qed.

Lemma transformSort_last_mention_age :
  exists o,
    transformSort (VArr (map VStr ["age"; "name"; "-age"])) = Return (VObj o)
    /\ lookup o "age" = lastDirection ["age"; "name"; "-age"] "age".
Proof.
  apply (transformSort_last_mention ["age"; "name"; "-age"] "age"). discriminate.
Defined.

Lemma fold_sortStep_thrown (xs : list value) (err : error) :
  fold_left sortStep xs (Throw err) = Throw err.
Proof. induction xs as [|x xs IH]; [reflexivity | exact IH]. Qed.

(** X15.  A sort list with an element that is not a string makes
    [transformSort] throw a [TypeError], wherever the element stands. *)
Theorem transformSort_rejects_non_strings (xs : list value) :
  Exists (fun x => typeof_string x = false) xs ->
  transformSort (VArr xs) = Throw (TypeError "s.startsWith is not a function").
Proof.
  intros H. unfold transformSort. cbn [typeof_string].
  assert (G : forall acc,
             fold_left sortStep xs (Return acc)
             = Throw (TypeError "s.startsWith is not a function")).
  { induction H as [x xs Hx | x xs _ IH]; intros acc; cbn [fold_left].
    - destruct x; try discriminate; simpl; apply fold_sortStep_thrown.
    - destruct x; try (simpl; apply fold_sortStep_thrown).
      rewrite sortStep_sortKey. apply IH. }
  now rewrite G.
Qed.

Lemma transformSort_rejects_non_strings_pair :
  transformSort (VArr [VStr "name"; VObj [("age", VNum (-1))]])
  = Throw (TypeError "s.startsWith is not a function").
Proof.
  apply (transformSort_rejects_non_strings [VStr "name"; VObj [("age", VNum (-1))]]).
  apply Exists_cons_tl. apply Exists_cons_hd. reflexivity.
Defined.

(** ** Identifiers in entities and queries *)

Lemma has_of_lookup (o : object) (k : string) :
  lookup o k <> VUndef -> Props.has o k = true.
Proof.
  induction o as [|[k0 v0] o IH]; simpl; [congruence|].
  destruct (k0 =? k); [reflexivity | exact IH].
Qed.

(** Writing back what a property holds changes nothing. *)
Lemma set_same (o : object) (k : string) :
  lookup o k <> VUndef -> Props.set o k (lookup o k) = o.
Proof.
  intros H. unfold Props.set. rewrite (has_of_lookup o k H). clear H.
  induction o as [|[k0 v0] o IH]; [reflexivity|].
  simpl. destruct (k0 =? k); [reflexivity | now rewrite IH].
Qed.

Lemma truthy_defined (v : value) : truthy v = true -> v <> VUndef.
Proof. intros H E. subst. discriminate. Qed.



Lemma mapResult_unchanged {A} (f : A -> result A) (xs : list A) :
  Forall (fun x => f x = Return x) xs -> mapResult f xs = Return xs.
Proof.
  induction 1 as [|x xs Hx _ IH]; [reflexivity|].
  simpl. now rewrite Hx, IH.
Qed.

Lemma mapResult_thrown (xs : list value) :
  Exists (fun x => typeof_string x = true) xs ->
  mapResult (stringToObjectID hdb_ObjectId) xs = Throw (ReferenceError "ObjectId").
Proof.
  induction 1 as [x xs Hx | x xs _ IH]; simpl.
  - unfold stringToObjectID. now rewrite Hx.
  - unfold stringToObjectID at 1. destruct (typeof_string x); [reflexivity|].
    simpl. now rewrite IH.
Qed.

(** X17.  With [ObjectId] unbound, [convertIDToObjectID] returns a query
    without a truthy [_id] as it is, and equally one whose [_id] is neither a
    string nor holds a string in its [$in] list; a string [_id], or a string
    anywhere in the [$in] list, makes it throw. *)
Theorem convertIDToObjectID_unbound (query : value) (q : object) :
  (truthy query && truthy (get query "_id") = false ->
   convertIDToObjectID hdb_ObjectId query = Return query)
  /\
  (forall s, s <> "" -> lookup q "_id" = VStr s ->
     convertIDToObjectID hdb_ObjectId (VObj q) = Throw (ReferenceError "ObjectId"))
  /\
  (forall o xs, lookup q "_id" = VObj o -> lookup o "$in" = VArr xs ->
     (Exists (fun x => typeof_string x = true) xs ->
      convertIDToObjectID hdb_ObjectId (VObj q) = Throw (ReferenceError "ObjectId"))
     /\
     (Forall (fun x => typeof_string x = false) xs ->
      convertIDToObjectID hdb_ObjectId (VObj q) = Return (VObj q)))
  /\
  (truthy (lookup q "_id") = true ->
   typeof_string (lookup q "_id") = false ->
   isArray (get (lookup q "_id") "$in") = false ->
   convertIDToObjectID hdb_ObjectId (VObj q) = Return (VObj q)).
Proof.
  split; [|split; [|split]].
  - intros H. unfold convertIDToObjectID. now rewrite H.
  - intros s Hs Hq. unfold convertIDToObjectID. cbn [truthy get entries andb].
    rewrite Hq. simpl. apply String.eqb_neq in Hs. now rewrite Hs.
  - intros o xs Hq Ho.
    assert (E : convertIDToObjectID hdb_ObjectId (VObj q)
                = bind (mapResult (stringToObjectID hdb_ObjectId) xs) (fun ys =>
                    Return (VObj (Props.set q "_id" (VObj (Props.set o "$in" (VArr ys))))))).
    { unfold convertIDToObjectID. cbn [truthy get entries andb].
      rewrite Hq. cbn [truthy typeof_object get isArray andb entries]. rewrite Ho.
      reflexivity. }
    rewrite E. split; intros H.
    + now rewrite mapResult_thrown.
    + rewrite mapResult_unchanged.
      * simpl. rewrite <- Ho, set_same by (rewrite Ho; discriminate).
        rewrite <- Hq, set_same by (rewrite Hq; discriminate). reflexivity.
      * eapply Forall_impl; [exact H|]. intros x Hx.
        now apply stringToObjectID_other.
  - intros Ht Hs Ha. unfold convertIDToObjectID. cbn [truthy get entries andb].
    rewrite Ht, Ha, andb_false_r, (stringToObjectID_other _ _ Hs). simpl.
    now rewrite set_same by (apply truthy_defined; exact Ht).
Qed.

Lemma convertIDToObjectID_unbound_examples :
  convertIDToObjectID hdb_ObjectId (VObj [("_id", VStr "507f1f77bcf86cd799439011")])
  = Throw (ReferenceError "ObjectId")
  /\ convertIDToObjectID hdb_ObjectId (VObj [("_id", VObj [("$in", VArr [VNum 1; VNum 2])])])
     = Return (VObj [("_id", VObj [("$in", VArr [VNum 1; VNum 2])])]).
Proof.
  split.
  - apply (proj1 (proj2 (convertIDToObjectID_unbound VUndef
                           [("_id", VStr "507f1f77bcf86cd799439011")]))
             "507f1f77bcf86cd799439011"); [discriminate | reflexivity].
  - apply (proj2 (proj1 (proj2 (proj2 (convertIDToObjectID_unbound VUndef
                     [("_id", VObj [("$in", VArr [VNum 1; VNum 2])])])))
                   [("$in", VArr [VNum 1; VNum 2])] [VNum 1; VNum 2] eq_refl eq_refl)).
    repeat constructor.
Defined.

(** X18.  With a sort, [findOne] goes through [find]: it returns the first
    row [exec] answers with (with [_id] set), [null] when there is no row,
    and the error when [exec] throws; the collection and [ObjectId] play no
    part, and neither does the sort itself beyond being set. *)
Theorem findOne_sorted (conn : Connection) (collection : option Collection)
    (ObjectId : option ObjectIdClass) (opts : Opts) (fields : list Field)
    (params : Params) :
  truthy (sort params) = true ->
  (forall row rows,
     conn (find_sql opts fields (Some params)) = Return (Rows (row :: rows)) ->
     findOne (Some conn) collection ObjectId opts fields params
     = Return (VObj (Props.set row "_id" (lookup row "_ID"))))
  /\
  (conn (find_sql opts fields (Some params)) = Return (Rows []) ->
   findOne (Some conn) collection ObjectId opts fields params = Return VNull)
  /\
  (forall err,
     conn (find_sql opts fields (Some params)) = Throw err ->
     findOne (Some conn) collection ObjectId opts fields params = Throw err).
Proof.
  intros Hs. unfold findOne, find, exec. rewrite Hs.
  split; [|split].
  - intros row rows H. now rewrite H.
  - intros H. now rewrite H.
  - intros err H. now rewrite H.
Qed.

Lemma findOne_sorted_people :
  findOne (Some (fun _ => Return (Rows []))) None hdb_ObjectId app people sortedRequest
  = Return VNull.
Proof.
  exact (proj1 (proj2 (findOne_sorted (fun _ => Return (Rows [])) None hdb_ObjectId
                         app people sortedRequest eq_refl)) eq_refl).
Defined.

(** X19.  With [ObjectId] unbound, the lookups by identifier never reach the
    collection for a string id: [findById], [replaceById] and [removeById],
    [findByIds] on a list that starts with a string, and [findOne] without a
    sort on a filter with a string [_id] all throw, whatever the collection
    would answer. *)
Theorem identifier_lookups_reject_strings (conn : option Connection)
    (collection : option Collection) (opts : Opts) (fields : list Field)
    (c : ascii) (s : string) (ids : list value) (entity q : object)
    (lim off : value) :
  let id := VStr (String c s) in
  let thrown := onCollection collection
                  (fun _ => Throw (ReferenceError "ObjectId") : result value) in
  findById collection hdb_ObjectId id = thrown
  /\ findByIds collection hdb_ObjectId (id :: ids) = thrown
  /\ replaceById collection hdb_ObjectId id entity = thrown
  /\ removeById collection hdb_ObjectId id = thrown
  /\ findOne conn collection hdb_ObjectId opts fields
       (mkParams (VObj (("_id", id) :: q)) VUndef lim off)
     = Throw (ReferenceError "ObjectId").
Proof. cbv zeta. destruct collection; repeat split; reflexivity. Qed.

(** ** The mixin's options, continued *)

Lemma mergeDefault_undefined (d : value) : mergeDefault VUndef d = d.
Proof. now destruct d. Qed.

(** X20.  The defaults fill gaps and nothing else: an option the caller
    left out (or gave as [undefined]) gets its default, and an option the
    caller gave, other than [cache], keeps the caller's value, whether the
    defaults know the option or not. *)
Theorem defaults_fill_only_gaps (mixinOpts : option object) (k : string) :
  (forall d, In (k, d) defaultOpts ->
     lookup (optionsObject mixinOpts) k = VUndef ->
     lookup (defaultsDeep mixinOpts defaultOpts) k = d)
  /\
  (k <> "cache" ->
   lookup (optionsObject mixinOpts) k <> VUndef ->
   lookup (defaultsDeep mixinOpts defaultOpts) k = lookup (optionsObject mixinOpts) k).
Proof.
  rewrite defaultsDeep_mergeEach. split.
  - intros d Hin Hu.
    rewrite (lookup_mergeEach _ _ k d defaultOpts_keys Hin), Hu.
    apply mergeDefault_undefined.
  - intros Hk Hv.
    destruct (in_dec string_dec k (map fst defaultOpts)) as [Hin|Hout].
    + apply in_map_iff in Hin. destruct Hin as [[k' d] [E Hin]]. simpl in E. subst k'.
      rewrite (lookup_mergeEach _ _ k d defaultOpts_keys Hin).
      simpl in Hin.
      repeat (destruct Hin as [Hin|Hin];
              [inversion Hin; subst;
               try congruence;
               destruct (lookup (optionsObject mixinOpts) _); try reflexivity; congruence|]).
      destruct Hin.
    + now apply lookup_mergeEach_other.
Qed.

Lemma defaults_fill_only_gaps_limits :
  lookup (defaultsDeep (Some [("maxLimit", VNum 100)]) defaultOpts) "defaultPageSize"
  = VNum 10
  /\ lookup (defaultsDeep (Some [("maxLimit", VNum 100)]) defaultOpts) "maxLimit"
     = VNum 100.
Proof.
  split.
  - apply (proj1 (defaults_fill_only_gaps (Some [("maxLimit", VNum 100)])
                    "defaultPageSize")); [simpl; tauto | reflexivity].
  - apply (proj2 (defaults_fill_only_gaps (Some [("maxLimit", VNum 100)]) "maxLimit"));
      discriminate.
Defined.

(** What the caller's [cache] object holds after the defaults. *)
Lemma cache_object_after_defaults (mixinOpts : option object) (c : object) :
  lookup (optionsObject mixinOpts) "cache" = VObj c ->
  exists c',
    lookup (defaultsDeep mixinOpts defaultOpts) "cache" = VObj c'
    /\ lookup c' "enable"
       = match lookup c "enable" with VUndef => VBool true | v => v end
    /\ lookup c' "eventName"
       = match lookup c "eventName" with VUndef => VNull | v => v end
    /\ forall k, k <> "enable" -> k <> "eventName" -> lookup c' k = lookup c k.
Proof.
  intros H. rewrite cache_after_defaults, H, mergeDefault_objects.
  eexists. split; [reflexivity|].
  assert (Hnd : List.NoDup (map fst [("enable", VBool true); ("eventName", VNull)])).
  { simpl. repeat (constructor; [simpl; intuition discriminate|]). constructor. }
  split; [|split].
  - rewrite (lookup_mergeEach _ _ "enable" (VBool true) Hnd) by (simpl; tauto).
    now destruct (lookup c "enable").
  - rewrite (lookup_mergeEach _ _ "eventName" VNull Hnd) by (simpl; tauto).
    now destruct (lookup c "eventName").
  - intros k H1 H2. apply lookup_mergeEach_other. simpl. intuition congruence.
Qed.

(** X21.  A [cache] object of the caller is merged, not replaced: after the
    defaults it holds everything the caller put in it, plus [enable: true]
    and [eventName: null] where the caller gave none. *)
Theorem cache_options_are_merged (mixinOpts : option object) (c : object) :
  lookup (optionsObject mixinOpts) "cache" = VObj c ->
  exists c',
    lookup (defaultsDeep mixinOpts defaultOpts) "cache" = VObj c'
    /\ (forall k, lookup c k <> VUndef -> lookup c' k = lookup c k)
    /\ (lookup c "enable" = VUndef -> lookup c' "enable" = VBool true)
    /\ (lookup c "eventName" = VUndef -> lookup c' "eventName" = VNull).
Proof.
  intros H. destruct (cache_object_after_defaults mixinOpts c H)
    as [c' [Hc [He [Hn Ho]]]].
  exists c'. split; [exact Hc|]. split; [|split].
  - intros k Hk.
    destruct (String.eqb_spec k "enable") as [->|H1].
    { rewrite He. destruct (lookup c "enable"); congruence. }
    destruct (String.eqb_spec k "eventName") as [->|H2].
    { rewrite Hn. destruct (lookup c "eventName"); congruence. }
    now apply Ho.
  - intros Hu. now rewrite He, Hu.
  - intros Hu. now rewrite Hn, Hu.
Qed.

Lemma cache_options_are_merged_ttl :
  exists c',
    lookup (defaultsDeep (Some [("cache", VObj [("ttl", VNum 30)])]) defaultOpts) "cache"
    = VObj c'
    /\ (forall k, lookup [("ttl", VNum 30)] k <> VUndef ->
          lookup c' k = lookup [("ttl", VNum 30)] k)
    /\ (lookup [("ttl", VNum 30)] "enable" = VUndef -> lookup c' "enable" = VBool true)
    /\ (lookup [("ttl", VNum 30)] "eventName" = VUndef -> lookup c' "eventName" = VNull).
Proof.
  exact (cache_options_are_merged (Some [("cache", VObj [("ttl", VNum 30)])])
           [("ttl", VNum 30)] eq_refl).
Defined.

Lemma events_only_when_enabled_posts :
  truthy (get (lookup (optionsObject
                         (Some [("cache", VObj [("enabled", VBool true);
                                                ("eventName", VStr "cache.clean.posts")])]))
                      "cache") "enabled") = true.
Proof.
  apply (events_only_when_enabled (fun _ => []) (fun _ => []) (fun _ => []) (fun _ => [])
           VUndef
           (Some [("cache", VObj [("enabled", VBool true);
                                  ("eventName", VStr "cache.clean.posts")])])
           {| name := ""; settings := [("fields", VNull); ("scopes", VObj []);
                                       ("defaultScopes", VNull); ("indexes", VNull)];
              actions := []; methods := [];
              events := Some ["cache.clean.posts"] |}).
  - reflexivity.
  - discriminate.
Defined.

(** X23.  With [cache.enabled] set by the caller, the schema subscribes to
    exactly one event: the caller's [cache.eventName] when it is truthy, and
    otherwise [cache.clean.] followed by the [name] of [this]; in a plain
    call, where [this] is [undefined], the mixin throws a [TypeError]
    instead of returning a schema. *)
Theorem enabled_cache_event (Actions DbMethods Transform Validation : object -> object)
    (thisArg : value) (mixinOpts : option object) :
  truthy (get (lookup (optionsObject mixinOpts) "cache") "enabled") = true ->
  let eventName := get (lookup (optionsObject mixinOpts) "cache") "eventName" in
  (truthy eventName = true ->
   exists sch,
     DatabaseMixin Actions DbMethods Transform Validation thisArg mixinOpts = Return sch
     /\ events sch = Some [toString eventName])
  /\
  (truthy eventName = false -> not_nullish thisArg = true ->
   exists sch,
     DatabaseMixin Actions DbMethods Transform Validation thisArg mixinOpts = Return sch
     /\ events sch = Some ["cache.clean." +:+ toString (get thisArg "name")])
  /\
  (truthy eventName = false -> not_nullish thisArg = false ->
   DatabaseMixin Actions DbMethods Transform Validation thisArg mixinOpts
   = Throw (TypeError "Cannot read properties of undefined (reading 'name')")).
Proof.
  intros He. cbv zeta.
  destruct (lookup (optionsObject mixinOpts) "cache") as [| |b|n|s|xs|c] eqn:Hc;
    try discriminate.
  destruct (cache_object_after_defaults mixinOpts c Hc) as [c' [Hc' [_ [Hn Ho]]]].
  assert (Hen : lookup c' "enabled" = lookup c "enabled") by (apply Ho; discriminate).
  cbn [get] in He |- *.
  unfold DatabaseMixin. rewrite Hc'. cbn [truthy get andb]. rewrite Hen, He.
  cbv iota. rewrite Hn.
  split; [|split].
  - intros Ht. destruct (lookup c "eventName"); try discriminate;
      rewrite Ht; eexists; split; reflexivity.
  - intros Ht Hthis. destruct (lookup c "eventName"); cbn [truthy] in *;
      try discriminate; rewrite ?Ht, ?Hthis; eexists; split; reflexivity.
  - intros Ht Hthis. destruct (lookup c "eventName"); cbn [truthy] in *;
      try discriminate; rewrite ?Ht, ?Hthis; reflexivity.
Qed.

Lemma enabled_cache_event_plain_call :
  DatabaseMixin (fun _ => []) (fun _ => []) (fun _ => []) (fun _ => []) VUndef
    (Some [("cache", VObj [("enabled", VBool true)])])
  = Throw (TypeError "Cannot read properties of undefined (reading 'name')").
Proof.
  exact (proj2 (proj2 (enabled_cache_event (fun _ => []) (fun _ => []) (fun _ => [])
                         (fun _ => []) VUndef
                         (Some [("cache", VObj [("enabled", VBool true)])]) eq_refl))
               eq_refl eq_refl).
Defined.

(** ** Index descriptions *)

Lemma fold_indexFields (names : list string) (acc : object) :
  List.NoDup (map fst acc ++ names)%list ->
  Forall (fun n => plainKey n = true) names ->
  fold_left (fun a b => Props.assign a (toString b) (VNum 1)) (map VStr names) acc
  = (acc ++ map (fun n => (n, VNum 1)) names)%list.
Proof.
  revert acc. induction names as [|n names IH]; intros acc Hnd Hp; cbn [fold_left map].
  - now rewrite app_nil_r.
  - inversion Hp as [|? ? Hn Hrest]; subst.
    unfold plainKey in Hn. apply andb_true_iff in Hn. destruct Hn as [Hq Hi].
    apply negb_true_iff in Hq. destruct (Props.array_index n) eqn:Ei in Hi; [discriminate|].
    cbn [toString]. unfold Props.assign. rewrite Hq, set_fresh; trivial.
    + rewrite IH; trivial.
      * now rewrite <- app_assoc.
      * rewrite map_app, <- app_assoc. exact Hnd.
    + apply NoDup_remove_2 in Hnd. intros Hin. apply Hnd. apply in_or_app. now left.
Qed.

(** X24.  [createIndex] on a list of different field names (none an array
    index or [__proto__]) asks the collection for an index that holds each
    name with [1], in the order of the list, and hands [def] on unchanged; a
    single name given as a string asks for the index of that one name. *)
Theorem createIndex_fields (c : Collection) (def : object) :
  (forall names,
     List.NoDup names ->
     Forall (fun n => plainKey n = true) names ->
     lookup def "fields" = VArr (map VStr names) ->
     createIndex (Some c) def
     = col_createIndex c (VObj (map (fun n => (n, VNum 1)) names)) def)
  /\
  (forall n,
     lookup def "fields" = VStr n ->
     createIndex (Some c) def = col_createIndex c (VObj [(n, VNum 1)]) def).
Proof.
  split.
  - intros names Hnd Hp H. unfold createIndex, onCollection, indexFields. rewrite H.
    cbn [typeof_string]. now rewrite (fold_indexFields names [] Hnd Hp).
  - intros n H. unfold createIndex, onCollection, indexFields. now rewrite H.
Qed.

Lemma createIndex_fields_pair :
  createIndex (Some echoCollection)
    [("fields", VArr (map VStr ["name"; "age"])); ("unique", VBool true)]
  = Return (VObj [("name", VNum 1); ("age", VNum 1)]).
Proof.
  apply (proj1 (createIndex_fields echoCollection
                  [("fields", VArr (map VStr ["name"; "age"])); ("unique", VBool true)])
           ["name"; "age"]).
  - repeat constructor; simpl; intuition discriminate.
  - repeat constructor.
  - reflexivity.
Defined.

(** ** Identifiers that are not strings *)

(** X25.  An identifier that is not a string and carries no [toHexString]
    (a number, say) goes through [stringToObjectID] and [objectIDToString]
    unchanged, in either order and whatever [ObjectId] is bound to. *)
Theorem non_string_identifier_round_trip (cls : option ObjectIdClass) (id : value) :
  typeof_string id = false ->
  truthy (get id "toHexString") = false ->
  bind (stringToObjectID cls id) objectIDToString = Return id
  /\ bind (objectIDToString id) (stringToObjectID cls) = Return id.
Proof.
  intros Hs Hh.
  assert (E : objectIDToString id = Return id).
  { unfold objectIDToString. now rewrite Hh, andb_false_r. }
  rewrite (stringToObjectID_other cls id Hs). simpl. rewrite E. simpl.
  split; [reflexivity | now apply stringToObjectID_other].
Qed.

Lemma non_string_identifier_round_trip_number :
  bind (stringToObjectID hdb_ObjectId (VNum 42)) objectIDToString = Return (VNum 42)
  /\ bind (objectIDToString (VNum 42)) (stringToObjectID hdb_ObjectId) = Return (VNum 42).
Proof.
  exact (non_string_identifier_round_trip hdb_ObjectId (VNum 42) eq_refl eq_refl).
Defined.

(** ** Looking an entity up by its identifier *)

(** X26.  For an identifier that is no object, the filter [{id: id}], the
    one [updateById] reads the entity back with, makes [find] send the select
    of the table with [WHERE _ID = ] and the identifier between single quotes,
    whatever the fields declare and even for an empty or zero identifier. *)
Theorem find_by_identifier_statement (opts : Opts) (fields : list Field) (id : value) :
  typeof_object id && not_nullish id = false ->
  find_sql opts fields (Some (onlyQuery (VObj [("id", id)])))
  = "select * from " +:+ tableName opts +:+ " WHERE _ID = '" +:+ toString id +:+ "'".
Proof.
  intros H.
  assert (E : createQuery fields (Some (onlyQuery (VObj [("id", id)])))
              = "WHERE " +:+ "_ID = '" +:+ toString id +:+ "'").
  { apply (createQuery_joined fields _ ["_ID = '" +:+ toString id +:+ "'"]);
      [reflexivity | | discriminate].
    constructor; [|constructor].
    rewrite (fragment_literal fields "id" id H).
    unfold physicalKey, keyIsString, literal. change (isIdKey "id") with true.
    cbn [orb]. rewrite ?append_assoc. reflexivity. }
  unfold find_sql. cbn [onlyQuery query truthy]. fold (onlyQuery (VObj [("id", id)])).
  rewrite E.
  replace ("WHERE " +:+ "_ID = '" +:+ toString id +:+ "'" =? "") with false by reflexivity.
  simpl negb. cbv iota. rewrite ?append_assoc. reflexivity.
Qed.

Lemma find_by_identifier_statement_people :
  find_sql app people (Some (onlyQuery (VObj [("id", VStr "a1")])))
  = "select * from APP.PEOPLE WHERE _ID = 'a1'".
Proof.
  exact (find_by_identifier_statement app people (VStr "a1") eq_refl).
Defined.
